(** * Flowchart builder (src/pages/Index.tsx): tree model and layout

    A shallow embedding of the [Index] page and its [FlowchartButton]
    component.  The tree of [FlowchartNode] objects is modelled together with
    the identity of every node object, so that "reused by reference" and
    "rebuilt as a new object" are different, observable outcomes.  Numbers
    that the source computes in IEEE 754 binary64 ([getButtonWidth]) are
    modelled with Rocq's primitive binary64 floats; numbers that stay
    integral (child counts, connector lengths) are in [Z] and [nat]. *)

From Stdlib Require Import String Ascii.
From Stdlib Require Import List Arith ZArith NArith Lia Bool Permutation.
From Stdlib Require Import Floats DecimalPos DecimalN.
Import ListNotations.

Set Implicit Arguments.
Set Warnings "-register-all,-inexact-float".

(** ** JavaScript strings

    A JS string is a sequence of UTF-16 code units; [length], [substring],
    [substr] and [trim] all work on code units. *)

Module JS.

Definition JSString := list N.

Definition str (s : string) : JSString :=
  map (fun c => N_of_ascii c) (list_ascii_of_string s).

Definition JSString_eq_dec : forall a b : JSString, {a = b} + {a <> b} :=
  list_eq_dec N.eq_dec.

(** [a === b] on strings. *)
Definition strict_eq (a b : JSString) : bool :=
  if JSString_eq_dec a b then true else false.

(** [s.substring(a, b)] for non-negative integer arguments: both indices are
    clamped to the length and swapped when out of order. *)
Definition substring (s : JSString) (a b : nat) : JSString :=
  let a' := Nat.min a (length s) in
  let b' := Nat.min b (length s) in
  let from := Nat.min a' b' in
  let to := Nat.max a' b' in
  firstn (to - from) (skipn from s).

(** [s.substr(start, len)] for non-negative integer arguments. *)
Definition substr (s : JSString) (start len : nat) : JSString :=
  firstn len (skipn start s).

(** WhiteSpace and LineTerminator code units, as removed by [trim]. *)
Definition isWhiteSpace (c : N) : bool :=
  match c with
  | 9 | 10 | 11 | 12 | 13 | 32 | 160 | 5760
  | 8192 | 8193 | 8194 | 8195 | 8196 | 8197 | 8198 | 8199 | 8200 | 8201 | 8202
  | 8232 | 8233 | 8239 | 8287 | 12288 | 65279 => true
  | _ => false
  end%N.

Fixpoint trimStart (s : JSString) : JSString :=
  match s with
  | [] => []
  | c :: s' => if isWhiteSpace c then trimStart s' else s
  end.

Definition trimEnd (s : JSString) : JSString := rev (trimStart (rev s)).

Definition trim (s : JSString) : JSString := trimEnd (trimStart s).

(** Truthiness of a string: the empty string is the only falsy one. *)
Definition truthy (s : JSString) : bool :=
  match s with [] => false | _ => true end.

(** Decimal rendering of a non-negative integer, as a template literal
    renders [node.children.length + 1] and [Date.now()]. *)
Fixpoint digits (u : Decimal.uint) : JSString :=
  match u with
  | Decimal.Nil => []
  | Decimal.D0 u => 48%N :: digits u
  | Decimal.D1 u => 49%N :: digits u
  | Decimal.D2 u => 50%N :: digits u
  | Decimal.D3 u => 51%N :: digits u
  | Decimal.D4 u => 52%N :: digits u
  | Decimal.D5 u => 53%N :: digits u
  | Decimal.D6 u => 54%N :: digits u
  | Decimal.D7 u => 55%N :: digits u
  | Decimal.D8 u => 56%N :: digits u
  | Decimal.D9 u => 57%N :: digits u
  end.

Definition decimal (n : N) : JSString := digits (N.to_uint n).

(** [Math.max(a, b)] on two numbers neither of which is NaN. *)
Definition Math_max (a b : float) : float :=
  if PrimFloat.ltb a b then b else a.

(** A string length as a JS number (exact below 2^53). *)
Definition number_of_length (n : nat) : float :=
  PrimFloat.of_uint63 (Uint63.of_Z (Z.of_nat n)).

End JS.
Import JS.

(** ** The data model *)

(** Identity of a node object (its allocation). *)
Definition ref := nat.

(** [interface FlowchartNode], together with the identity of the object. *)
Inductive FlowchartNode : Type :=
  mkNode {
    obj : ref;
    id : JSString;
    name : JSString;
    children : list FlowchartNode;
    isEditing : bool;
    childrenVisible : bool
  }.

(** [Partial<FlowchartNode>]: [None] is a property the object does not have. *)
Record Updates : Type :=
  mkUpdates {
    u_id : option JSString;
    u_name : option JSString;
    u_children : option (list FlowchartNode);
    u_isEditing : option bool;
    u_childrenVisible : option bool
  }.

Definition no_updates : Updates := mkUpdates None None None None None.

(** ** Allocation of objects

    Every object literal creates a new object.  The state is the next unused
    identity. *)

Definition Alloc (A : Type) : Type := ref -> A * ref.

Definition ret {A} (a : A) : Alloc A := fun s => (a, s).

Definition bind {A B} (m : Alloc A) (k : A -> Alloc B) : Alloc B :=
  fun s => let (a, s') := m s in k a s'.

Definition new_object : Alloc ref := fun s => (s, S s).

Declare Scope alloc_scope.
Delimit Scope alloc_scope with alloc.
Notation "x <- m ;; k" := (bind m (fun x => k))
  (at level 61, m at next level, right associativity) : alloc_scope.
Open Scope alloc_scope.

(** [xs.map(f)] where [f] allocates. *)
Section MapM.

Variables A B : Type.
Variable f : A -> Alloc B.

Fixpoint mapM (xs : list A) : Alloc (list B) :=
  match xs with
  | [] => ret []
  | x :: xs' => y <- f x ;; ys <- mapM xs' ;; ret (y :: ys)
  end.

End MapM.

Definition pick {A} (o : option A) (d : A) : A :=
  match o with Some a => a | None => d end.

(** [{ ...node, ...updates }] as the object with identity [r]. *)
Definition spread_updates (r : ref) (node : FlowchartNode) (updates : Updates)
  : FlowchartNode :=
  mkNode r
    (pick (u_id updates) (id node))
    (pick (u_name updates) (name node))
    (pick (u_children updates) (children node))
    (pick (u_isEditing updates) (isEditing node))
    (pick (u_childrenVisible updates) (childrenVisible node)).

(** [{ ...node, children: cs }] as the object with identity [r]. *)
Definition spread_children (r : ref) (node : FlowchartNode)
  (cs : list FlowchartNode) : FlowchartNode :=
  mkNode r (id node) (name node) cs (isEditing node) (childrenVisible node).

(** ** The host page [Index] *)

Section UpdateNode.

Variable nodeId : JSString.
Variable updates : Updates.

Fixpoint updateNodeRecursive (node : FlowchartNode) : Alloc FlowchartNode :=
    if strict_eq (id node) nodeId then
      r <- new_object ;; ret (spread_updates r node updates)
    else
      r <- new_object ;;
      cs <- mapM updateNodeRecursive (children node) ;;
      ret (spread_children r node cs).

End UpdateNode.

(** What [addChild] reads from its environment: [Date.now()] and the text of
    [Math.random().toString(36)]. *)
Record Env : Type :=
  mkEnv {
    Date_now : N;
    Math_random_toString36 : JSString
  }.

(** [`node-${Date.now()}-${Math.random().toString(36).substr(2, 9)}`] *)
Definition makeChildId (e : Env) : JSString :=
  str "node-" ++ decimal (Date_now e) ++ str "-"
    ++ substr (Math_random_toString36 e) 2 9.

(** The object literal of the new child, with identity [r]. *)
Definition newChild (r : ref) (childId : JSString) (node : FlowchartNode)
  : FlowchartNode :=
  mkNode r childId
    (str "Button " ++ decimal (N.of_nat (length (children node) + 1)))
    [] false true.

Section AddChild.

Variable parentId : JSString.
Variable childId : JSString.

Fixpoint addChildRecursive (node : FlowchartNode) : Alloc FlowchartNode :=
  if strict_eq (id node) parentId then
    r <- new_object ;;
    c <- new_object ;;
    ret (spread_children r node (children node ++ [newChild c childId node]))
  else
    r <- new_object ;;
    cs <- mapM addChildRecursive (children node) ;;
    ret (spread_children r node cs).

End AddChild.

(** The state of [Index]: the two [useState] cells, and the next unused
    object identity. *)
Record Index : Type :=
  mkIndex {
    flowchart : FlowchartNode;
    truncateText : bool;
    next_ref : ref
  }.

Definition initial : Index :=
  mkIndex (mkNode 0 (str "root") (str "Start") [] false true) false 1.

(** [setFlowchart(updateNodeRecursive(flowchart))] *)
Definition updateNode (nodeId : JSString) (updates : Updates) (st : Index)
  : Index :=
  let (t, s) := updateNodeRecursive nodeId updates (flowchart st) (next_ref st) in
  mkIndex t (truncateText st) s.

(** [setFlowchart(addChildRecursive(flowchart))] *)
Definition addChild (parentId : JSString) (e : Env) (st : Index) : Index :=
  let childId := makeChildId e in
  let (t, s) := addChildRecursive parentId childId (flowchart st) (next_ref st) in
  mkIndex t (truncateText st) s.

(** A run of [addChild] calls, each with what it read from its environment. *)
Fixpoint addChildren (calls : list (JSString * Env)) (st : Index) : Index :=
  match calls with
  | [] => st
  | (parentId, e) :: calls' => addChildren calls' (addChild parentId e st)
  end.

(** [setTruncateText(!truncateText)], the click on the control above the
    chart. *)
Definition toggleTruncateText (st : Index) : Index :=
  mkIndex (flowchart st) (negb (truncateText st)) (next_ref st).

(** ** The component [FlowchartButton] *)

Module FlowchartButton.

(** The handlers of the instance that renders [node], whose own state is
    [editValue]; they return the new [editValue] and the new host state. *)
Section Handlers.

Variable node : FlowchartNode.

Definition handleDoubleClick (editValue : JSString) (st : Index)
  : JSString * Index :=
  let st' := updateNode (id node) (mkUpdates None None None (Some true) None) st in
  (name node, st').

Definition handleSaveEdit (editValue : JSString) (st : Index)
  : JSString * Index :=
  if truthy (trim editValue) then
    (editValue,
     updateNode (id node)
       (mkUpdates None (Some (trim editValue)) None (Some false) None) st)
  else
    (name node,
     updateNode (id node) (mkUpdates None None None (Some false) None) st).

Definition handleCancelEdit (editValue : JSString) (st : Index)
  : JSString * Index :=
  (name node,
   updateNode (id node) (mkUpdates None None None (Some false) None) st).

Definition toggleChildrenVisibility (editValue : JSString) (st : Index)
  : JSString * Index :=
  (editValue,
   updateNode (id node)
     (mkUpdates None None None None (Some (negb (childrenVisible node)))) st).

(** [onKeyDown] of the input: Enter saves, Escape cancels, any other key is
    left to the input. *)
Definition handleKeyPress (key : JSString) (editValue : JSString) (st : Index)
  : JSString * Index :=
  if strict_eq key (str "Enter") then handleSaveEdit editValue st
  else if strict_eq key (str "Escape") then handleCancelEdit editValue st
  else (editValue, st).

End Handlers.

(** *** Layout *)

Definition getButtonWidth (text : JSString) : float :=
  let baseWidth := 8%float in
  let charWidth := 0.7%float in
  let padding := 4%float in
  Math_max baseWidth (number_of_length (length text) * charWidth + padding)%float.

Section Layout.

Variable truncateText : bool.

Definition getDisplayText (text : JSString) : JSString :=
  if negb truncateText || (length text <=? 20) then text
  else substring text 0 20 ++ str "...".

Definition buttonWidth (node : FlowchartNode) (editValue : JSString) : float :=
  getButtonWidth
    (if isEditing node then editValue
     else if truncateText then getDisplayText (name node) else name node).

Definition displayText (node : FlowchartNode) : JSString :=
  getDisplayText (name node).

Definition hasChildren (node : FlowchartNode) : bool :=
  0 <? length (children node).

(** The main box: the [Input] while editing, the [Button] otherwise. *)
Inductive MainBox : Type :=
| InputBox (value : JSString) (width : float)
| ButtonBox (text : JSString) (width : float) (title : option JSString).

(** The horizontal connector: its width and the [left] of each vertical
    line, all in rem. *)
Record Connector : Type :=
  mkConnector {
    spine_width : Z;
    tick_left : list Z
  }.

(** What one instance renders. *)
Inductive View : Type :=
| mkView (line_from_parent : bool)
         (eye_toggle : option bool)
         (main_box : MainBox)
         (child_row : option ChildRow)
with ChildRow : Type :=
| mkChildRow (horizontal : option Connector) (row : list View).

Definition child_row_of (v : View) : option ChildRow :=
  match v with mkView _ _ _ r => r end.

Definition main_box_of (v : View) : MainBox :=
  match v with mkView _ _ m _ => m end.

Definition horizontal_of (r : ChildRow) : option Connector :=
  match r with mkChildRow h _ => h end.

Definition row_of (r : ChildRow) : list View :=
  match r with mkChildRow _ vs => vs end.

Definition box_width (m : MainBox) : float :=
  match m with InputBox _ w => w | ButtonBox _ w _ => w end.

(** [node.children.map((_, index) => ... left: index * 14 ...)] *)
Definition tick_lefts (cs : list FlowchartNode) : list Z :=
  map (fun index => Z.of_nat index * 14)%Z (seq 0 (length cs)).

Definition connector (node : FlowchartNode) : option Connector :=
  if 1 <? length (children node) then
    Some (mkConnector ((Z.of_nat (length (children node)) - 1) * 14 + 6)
            (tick_lefts (children node)))
  else None.

(** React keeps one instance per rendered node (children are keyed by
    [child.id]); [editValues] gives the [editValue] of the instance that
    renders the node of a given id. *)
Variable editValues : JSString -> JSString.

Definition mainBox (node : FlowchartNode) : MainBox :=
  if isEditing node then
    InputBox (editValues (id node)) (buttonWidth node (editValues (id node)))
  else
    ButtonBox (displayText node) (buttonWidth node (editValues (id node)))
      (if truncateText && (20 <? length (name node)) then Some (name node)
       else None).

Fixpoint render (node : FlowchartNode) (depth : nat) : View :=
  mkView (0 <? depth)
    (if hasChildren node then Some (childrenVisible node) else None)
    (mainBox node)
    (if hasChildren node && childrenVisible node then
       Some (mkChildRow (connector node)
               (map (fun child => render child (depth + 1)) (children node)))
     else None).

End Layout.

End FlowchartButton.
Import FlowchartButton.

(** ** Observations on trees *)

(** The node reached from [t] by following child indices [p]. *)
Fixpoint get (p : list nat) (t : FlowchartNode) : option FlowchartNode :=
  match p with
  | [] => Some t
  | i :: p' =>
      match nth_error (children t) i with
      | Some c => get p' c
      | None => None
      end
  end.

(** All node ids, parent before children, children left to right. *)
Fixpoint ids (t : FlowchartNode) : list JSString :=
  id t :: flat_map ids (children t).

(** The identities of all node objects of the tree. *)
Fixpoint refs (t : FlowchartNode) : list ref :=
  obj t :: flat_map refs (children t).

(** Every object of [t] was allocated before [s]. *)
Definition allocated_before (s : ref) (t : FlowchartNode) : Prop :=
  forall r, In r (refs t) -> r < s.

(** The tree as a value: the same fields, object identities forgotten. *)
Fixpoint content (t : FlowchartNode) : FlowchartNode :=
  mkNode 0 (id t) (name t) (map content (children t))
    (isEditing t) (childrenVisible t).

(** The edges only. *)
Inductive Shape : Type := Sh (subshapes : list Shape).

Fixpoint shape (t : FlowchartNode) : Shape :=
  Sh (map shape (children t)).

(** A node's own fields. *)
Definition fields (t : FlowchartNode) : JSString * JSString * bool * bool :=
  (id t, name t, isEditing t, childrenVisible t).

(** [p] is a prefix of [q]: the node at [p] lies on the path from the root to
    the node at [q]. *)
Definition on_path (p q : list nat) : Prop := exists r, q = p ++ r.

(** ** Path copying

    [updateNodeRecursive] and [addChildRecursive] are the same traversal: a
    node whose id is the key is handed to [hit] and the traversal does not
    descend into it; any other node is rebuilt around its mapped children. *)

Section PathCopy.

Variable key : JSString.
Variable hit : FlowchartNode -> Alloc FlowchartNode.

Fixpoint pathCopy (node : FlowchartNode) : Alloc FlowchartNode :=
  if strict_eq (id node) key then hit node
  else
    r <- new_object ;;
    cs <- mapM pathCopy (children node) ;;
    ret (spread_children r node cs).

(** The traversal reaches the node at [p]: no proper ancestor along [p] has
    the key as its id. *)
Fixpoint visited (p : list nat) (t : FlowchartNode) : bool :=
  match p with
  | [] => true
  | i :: p' =>
      if strict_eq (id t) key then false
      else match nth_error (children t) i with
           | Some c => visited p' c
           | None => false
           end
  end.

(** The traversal as a function on values: [hitv] in place of [hit], every
    node keeping its identity. *)
Variable hitv : FlowchartNode -> FlowchartNode.

Fixpoint pathCopy_value (node : FlowchartNode) : FlowchartNode :=
  if strict_eq (id node) key then hitv node
  else spread_children (obj node) node (map pathCopy_value (children node)).

End PathCopy.

Definition hit_update (updates : Updates) (node : FlowchartNode)
  : Alloc FlowchartNode :=
  r <- new_object ;; ret (spread_updates r node updates).

Definition hit_addChild (childId : JSString) (node : FlowchartNode)
  : Alloc FlowchartNode :=
  r <- new_object ;;
  c <- new_object ;;
  ret (spread_children r node (children node ++ [newChild c childId node])).

Definition hitv_update (updates : Updates) (node : FlowchartNode)
  : FlowchartNode :=
  spread_updates (obj node) node updates.

Definition hitv_addChild (childId : JSString) (node : FlowchartNode)
  : FlowchartNode :=
  spread_children (obj node) node
    (children node ++ [newChild 0 childId node]).

(** ** What the specification describes *)

(** [f] applied to the [i]-th element of a sequence. *)
Fixpoint modify_nth {A} (i : nat) (f : A -> A) (l : list A) : list A :=
  match l, i with
  | [], _ => []
  | x :: l', 0 => f x :: l'
  | x :: l', S i' => x :: modify_nth i' f l'
  end.

(** The tree in which the node at path [p], and no other, is replaced by its
    image under [f]. *)
Fixpoint modifyAt (p : list nat) (f : FlowchartNode -> FlowchartNode)
  (t : FlowchartNode) : FlowchartNode :=
  match p with
  | [] => f t
  | i :: p' =>
      spread_children (obj t) t (modify_nth i (modifyAt p' f) (children t))
  end.

(** ** Statements and examples used below *)

(** The node at [p] lies strictly below a node whose id is [key]. *)
Definition below_key (key : JSString) (p : list nat) (t : FlowchartNode)
  : Prop :=
  exists q r m, p = q ++ r /\ r <> [] /\ get q t = Some m /\ id m = key.

(** The claim as the specification states it: every subtree off the path from
    the root to the target is the same object after the call. *)
Definition update_shares_off_path (st : Index) (nodeId : JSString)
  (updates : Updates) : Prop :=
  forall q target,
    get q (flowchart st) = Some target -> id target = nodeId ->
    forall p n,
      get p (flowchart st) = Some n -> ~ on_path p q ->
      get p (flowchart (updateNode nodeId updates st)) = Some n.

(** The same for [addChild]: every node off the chain from the root to the
    parent is the same object after the call. *)
Definition addChild_shares_off_path (st : Index) (parentId : JSString)
  (e : Env) : Prop :=
  forall q parent,
    get q (flowchart st) = Some parent -> id parent = parentId ->
    forall p n,
      get p (flowchart st) = Some n -> ~ on_path p q ->
      get p (flowchart (addChild parentId e st)) = Some n.

(** Two readings of the clock and of [Math.random().toString(36)]. *)
Definition env1 : Env := mkEnv 1700000000000 (str "0.4fzyo82mvyr").
Definition env2 : Env := mkEnv 1700000000007 (str "0.9x3k1c0h2ab").

(** The root with two children. *)
Definition two_children : Index :=
  addChildren [(str "root", env1); (str "root", env2)] initial.

(** [{ isEditing: true }] *)
Definition start_editing : Updates :=
  mkUpdates None None None (Some true) None.

(** The claim as stated: whatever the updates, the edges stay. *)
Definition update_keeps_shape (st : Index) (nodeId : JSString)
  (updates : Updates) : Prop :=
  shape (flowchart (updateNode nodeId updates st)) = shape (flowchart st).

(** [{ children: [] }] *)
Definition drop_children : Updates := mkUpdates None None (Some []) None None.

(** [update(childId, {editing: true})] on the first of two children. *)
Definition editing_first : Index :=
  updateNode (makeChildId env1) start_editing two_children.

(** Two children made at the same clock value with the same random digits,
    so with the same id, and both put into editing state by one double
    click. *)
Definition twins_editing : Index :=
  updateNode (makeChildId env1) start_editing
    (addChildren [(str "root", env1); (str "root", env1)] initial).

(** The leaf that [addChild] appends below [parent]. *)
Definition new_leaf (e : Env) (parent : FlowchartNode) : FlowchartNode :=
  mkNode 0 (makeChildId e)
    (str "Button " ++ decimal (N.of_nat (length (children parent) + 1)))
    [] false true.

(** [leaf] put at the end of the child sequence of [m]. *)
Definition append_child (leaf : FlowchartNode) (m : FlowchartNode)
  : FlowchartNode :=
  spread_children (obj m) m (children m ++ [leaf]).

(** The part of the claim that the code does not provide: the id of the leaf
    appended below [parentId] is carried by no node of the tree before the
    call. *)
Definition appended_id_is_fresh (st : Index) (parentId : JSString) (e : Env)
  : Prop :=
  forall p parent leaf,
    get p (flowchart st) = Some parent -> id parent = parentId ->
    get (p ++ [length (children parent)]) (flowchart (addChild parentId e st))
    = Some leaf ->
    ~ In (id leaf) (ids (flowchart st)).

(** The ids that a run of [addChild] calls generates. *)
Definition generated_ids (calls : list (JSString * Env)) : list JSString :=
  map (fun call => makeChildId (snd call)) calls.

(** The claim as stated: after any run of [addChild] calls from the initial
    tree, no two nodes carry the same id. *)
Definition ids_distinct_after (calls : list (JSString * Env)) : Prop :=
  NoDup (ids (flowchart (addChildren calls initial))).

(** The width of a box around a text of [n] code units. *)
Definition width_of_length (n : nat) : float :=
  Math_max 8 (number_of_length n * 0.7 + 4)%float.

(** ** Events

    What a user can do to the page.  An instance of [FlowchartButton] exists
    for the node at [p] when every node above it has [childrenVisible]; its
    input, with [onKeyDown] and [onBlur], exists while the node is being
    edited, its button, with [onDoubleClick], while it is not, and its eye
    while it has children.  The edit buffer is whatever the user typed. *)

(** The node at [p] is rendered: every node above it shows its children. *)
Fixpoint shown (p : list nat) (t : FlowchartNode) : bool :=
  match p with
  | [] => true
  | i :: p' =>
      childrenVisible t
      && match nth_error (children t) i with
         | Some c => shown p' c
         | None => false
         end
  end.

Inductive step (st : Index) : Index -> Prop :=
| step_double_click p node editValue :
    get p (flowchart st) = Some node -> shown p (flowchart st) = true ->
    isEditing node = false ->
    step st (snd (handleDoubleClick node editValue st))
| step_key_down p node key editValue :
    get p (flowchart st) = Some node -> shown p (flowchart st) = true ->
    isEditing node = true ->
    step st (snd (handleKeyPress node key editValue st))
| step_blur p node editValue :
    get p (flowchart st) = Some node -> shown p (flowchart st) = true ->
    isEditing node = true ->
    step st (snd (handleSaveEdit node editValue st))
| step_eye p node editValue :
    get p (flowchart st) = Some node -> shown p (flowchart st) = true ->
    hasChildren node = true ->
    step st (snd (toggleChildrenVisibility node editValue st))
| step_add p node e :
    get p (flowchart st) = Some node -> shown p (flowchart st) = true ->
    step st (addChild (id node) e st)
| step_truncate :
    step st (toggleTruncateText st).

(** The states of the page: the initial one, and every state an event leads
    to from a state of the page. *)
Inductive reachable : Index -> Prop :=
| reachable_initial : reachable initial
| reachable_step st st' : reachable st -> step st st' -> reachable st'.

(** ** More observations *)

(** The own fields of every node, parent before children. *)
Fixpoint all_fields (t : FlowchartNode)
  : list (JSString * JSString * bool * bool) :=
  fields t :: flat_map all_fields (children t).

(** The labels of all nodes. *)
Definition names (t : FlowchartNode) : list JSString :=
  map (fun f => snd (fst (fst f))) (all_fields t).

(** Updates as values: the identities of the objects in [children]
    forgotten. *)
Definition content_updates (u : Updates) : Updates :=
  mkUpdates (u_id u) (u_name u) (option_map (map content) (u_children u))
    (u_isEditing u) (u_childrenVisible u).

Definition or_else {A} (o o' : option A) : option A :=
  match o with Some a => Some a | None => o' end.

(** [{ ...u1, ...u2 }] *)
Definition merge_updates (u1 u2 : Updates) : Updates :=
  mkUpdates (or_else (u_id u2) (u_id u1)) (or_else (u_name u2) (u_name u1))
    (or_else (u_children u2) (u_children u1))
    (or_else (u_isEditing u2) (u_isEditing u1))
    (or_else (u_childrenVisible u2) (u_childrenVisible u1)).

(** A code unit that [trim] removes. *)
Definition white (c : N) : Prop := isWhiteSpace c = true.

(** A text that is not empty and that [trim] leaves as it is. *)
Definition well_trimmed (s : JSString) : Prop := s <> [] /\ trim s = s.

(** The updates that the handlers of a node pass to [updateNode]: no [id],
    no [children], and for the label only a trimmed text that is not
    empty. *)
Definition handler_updates (u : Updates) : Prop :=
  u_id u = None /\ u_children u = None
  /\ forall s, u_name u = Some s -> well_trimmed s.

(** Any number of events, one after the other. *)
Inductive steps (st : Index) : Index -> Prop :=
| steps_none : steps st st
| steps_more st' st'' : steps st st' -> step st' st'' -> steps st st''.

(** Every node in editing state is reached by [updateNode] under its own id:
    no node above it carries the same id. *)
Definition editing_reached (t : FlowchartNode) : Prop :=
  forall p n,
    get p t = Some n -> isEditing n = true -> visited (id n) p t = true.

(** An id as [addChild] makes them. *)
Definition generated (k : JSString) : Prop := firstn 5 k = str "node-".

(** The positions below a sequence of children whose first has index [i]:
    for every child, the positions that [f] gives in it, behind the index of
    the child. *)
Section Under.

Variable f : FlowchartNode -> list (list nat).


End Under.




(** The label of the [i]-th child made. *)
Definition button_label (i : nat) : JSString :=
  str "Button " ++ decimal (N.of_nat i).

(** ** Induction on trees *)

Section TreeInduction.

Variable P : FlowchartNode -> Prop.
Hypothesis step : forall r i n cs e v, Forall P cs -> P (mkNode r i n cs e v).

Fixpoint FlowchartNode_tree_ind (t : FlowchartNode) : P t :=
  match t with
  | mkNode r i n cs e v =>
      step r i n e v
        ((fix all (l : list FlowchartNode) : Forall P l :=
            match l with
            | [] => Forall_nil P
            | c :: l' => Forall_cons c (FlowchartNode_tree_ind c) (all l')
            end) cs)
  end.

End TreeInduction.

Ltac unfold_alloc := unfold bind, ret, new_object in *.

(** ** Basic facts *)

Lemma strict_eq_true (a b : JSString) : strict_eq a b = true <-> a = b.
Proof.
  unfold strict_eq. destruct (JSString_eq_dec a b); split; congruence.
Qed.

Lemma strict_eq_false (a b : JSString) : strict_eq a b = false <-> a <> b.
Proof.
  unfold strict_eq. destruct (JSString_eq_dec a b); split; congruence.
Qed.

Lemma strict_eq_refl (a : JSString) : strict_eq a a = true.
Proof. now apply strict_eq_true. Qed.

Lemma updateNodeRecursive_pathCopy nodeId updates t :
  updateNodeRecursive nodeId updates t = pathCopy nodeId (hit_update updates) t.
Proof.
  induction t as [r i n cs e v IH] using FlowchartNode_tree_ind.
  cbn [updateNodeRecursive pathCopy id children].
  destruct (strict_eq i nodeId); [reflexivity|].
  assert (E : mapM (updateNodeRecursive nodeId updates) cs
              = mapM (pathCopy nodeId (hit_update updates)) cs).
  { induction IH as [|c l Hc _ IHl]; cbn [mapM]; [reflexivity|].
    now rewrite Hc, IHl. }
  now rewrite E.
Qed.

Lemma addChildRecursive_pathCopy parentId childId t :
  addChildRecursive parentId childId t
  = pathCopy parentId (hit_addChild childId) t.
Proof.
  induction t as [r i n cs e v IH] using FlowchartNode_tree_ind.
  cbn [addChildRecursive pathCopy id children].
  destruct (strict_eq i parentId); [reflexivity|].
  assert (E : mapM (addChildRecursive parentId childId) cs
              = mapM (pathCopy parentId (hit_addChild childId)) cs).
  { induction IH as [|c l Hc _ IHl]; cbn [mapM]; [reflexivity|].
    now rewrite Hc, IHl. }
  now rewrite E.
Qed.

(** ** The model on concrete inputs *)

Example trim_inner_space : trim (str "  ab c  ") = str "ab c".
Proof. reflexivity. Qed.

Example substring_swaps : substring (str "abcdef") 4 2 = str "cd".
Proof. reflexivity. Qed.

Example decimal_120 : decimal 120 = str "120".
Proof. reflexivity. Qed.

Example makeChildId_env1 :
  makeChildId env1 = str "node-1700000000000-4fzyo82mv".
Proof. reflexivity. Qed.

Example width_of_Start : getButtonWidth (str "Start") = 8%float.
Proof. vm_compute. reflexivity. Qed.

Example width_of_24 :
  getButtonWidth (repeat 65%N 24) = 20.799999999999997%float.
Proof. vm_compute. reflexivity. Qed.

(** The root is rebuilt by each call; the children of an earlier call are
    carried over. *)
Example two_children_objects :
  (obj (flowchart two_children), map obj (children (flowchart two_children)),
   next_ref two_children)
  = (3, [2; 4], 5).
Proof. reflexivity. Qed.

(** Updating the first child: the root, the first child and its sibling are
    all new objects. *)
Example update_first_child_objects :
  (obj (flowchart editing_first), map obj (children (flowchart editing_first)))
  = (5, [6; 7]).
Proof. reflexivity. Qed.

Example two_children_labels :
  map name (children (flowchart two_children))
  = [str "Button 1"; str "Button 2"].
Proof. reflexivity. Qed.

(** ** Allocation facts *)

Section MapMFacts.

Variables A B : Type.
Variable f : A -> Alloc B.
Hypothesis f_mono : forall x s, s <= snd (f x s).

Lemma mapM_mono (l : list A) (s : ref) : s <= snd (mapM f l s).
Proof.
  revert s. induction l as [|x l IH]; intros s; cbn [mapM]; unfold_alloc.
  - apply Nat.le_refl.
  - specialize (f_mono x s). destruct (f x s) as [y s1]. cbn [snd] in f_mono.
    specialize (IH s1). destruct (mapM f l s1) as [ys s2]. cbn [snd] in *. lia.
Qed.

Lemma mapM_length (l : list A) (s : ref) :
  length (fst (mapM f l s)) = length l.
Proof.
  revert s. induction l as [|x l IH]; intros s; cbn [mapM]; unfold_alloc.
  - reflexivity.
  - destruct (f x s) as [y s1]. specialize (IH s1).
    destruct (mapM f l s1) as [ys s2]. cbn in *. now rewrite IH.
Qed.

(** The [i]-th element of the result is [f] of the [i]-th element, run at
    some allocation state between the start and the end of the map. *)
Lemma mapM_nth (l : list A) (s : ref) (i : nat) (x : A) :
  nth_error l i = Some x ->
  exists si, s <= si /\ snd (f x si) <= snd (mapM f l s)
             /\ nth_error (fst (mapM f l s)) i = Some (fst (f x si)).
Proof.
  revert s i. induction l as [|a l IH]; intros s i Hi.
  - destruct i; discriminate.
  - cbn [mapM]; unfold_alloc. destruct i as [|i]; cbn [nth_error] in Hi.
    + injection Hi as ->. exists s.
      pose proof (f_mono x s) as Hm.
      destruct (f x s) as [y s1] eqn:E.
      pose proof (mapM_mono l s1) as Hl.
      destruct (mapM f l s1) as [ys s2]. cbn in *. repeat split; lia.
    + pose proof (f_mono a s) as Hm.
      destruct (f a s) as [y s1] eqn:E. cbn [snd] in Hm.
      destruct (IH s1 i Hi) as (si & H1 & H2 & H3).
      destruct (mapM f l s1) as [ys s2]. cbn [fst snd nth_error] in *.
      exists si. repeat split; try lia. exact H3.
Qed.

Lemma mapM_nth_none (l : list A) (s : ref) (i : nat) :
  nth_error l i = None -> nth_error (fst (mapM f l s)) i = None.
Proof.
  intros H. apply nth_error_None. rewrite mapM_length.
  now apply nth_error_None.
Qed.

End MapMFacts.

Section PathCopyFacts.

Variable key : JSString.
Variable hit : FlowchartNode -> Alloc FlowchartNode.

(** [hit] returns a newly allocated object. *)
Hypothesis hit_new :
  forall n s, s <= obj (fst (hit n s)) /\ obj (fst (hit n s)) < snd (hit n s).

Lemma pathCopy_new (t : FlowchartNode) (s : ref) :
  s <= obj (fst (pathCopy key hit t s))
  /\ obj (fst (pathCopy key hit t s)) < snd (pathCopy key hit t s).
Proof.
  revert s. induction t as [r i n cs e v IH] using FlowchartNode_tree_ind.
  intros s. cbn [pathCopy id children].
  destruct (strict_eq i key); [apply hit_new|].
  unfold_alloc.
  assert (M : S s <= snd (mapM (pathCopy key hit) cs (S s))).
  { clear -IH. generalize (S s) as s0.
    induction IH as [|c l Hc _ IHl]; intros s0; cbn [mapM]; unfold_alloc.
    - apply Nat.le_refl.
    - specialize (Hc s0). destruct (pathCopy key hit c s0) as [y s1].
      specialize (IHl s1). destruct (mapM (pathCopy key hit) l s1) as [ys s2].
      cbn [fst snd] in *. lia. }
  destruct (mapM (pathCopy key hit) cs (S s)) as [cs' s']. cbn in *. lia.
Qed.

Lemma pathCopy_mono (t : FlowchartNode) (s : ref) :
  s <= snd (pathCopy key hit t s).
Proof. pose proof (pathCopy_new t s). lia. Qed.

(** Every node the traversal reaches is a new object in the result. *)
Lemma visited_new (p : list nat) :
  forall t s n,
    get p t = Some n -> visited key p t = true ->
    exists n', get p (fst (pathCopy key hit t s)) = Some n'
               /\ s <= obj n' /\ obj n' < snd (pathCopy key hit t s).
Proof.
  induction p as [|i p IH]; intros t s n Hg Hv.
  - cbn [get]. eexists; split; [reflexivity|]. apply pathCopy_new.
  - destruct t as [r ti tn cs e v]. cbn [get visited children id] in *.
    cbn [pathCopy id children].
    destruct (strict_eq ti key); [discriminate|].
    destruct (nth_error cs i) as [c|] eqn:Hc; [|discriminate].
    unfold_alloc.
    destruct (mapM_nth (pathCopy key hit) pathCopy_mono cs (S s) i Hc)
      as (si & H1 & H2 & H3).
    destruct (IH c si n Hg Hv) as (n' & G1 & G2 & G3).
    destruct (mapM (pathCopy key hit) cs (S s)) as [cs' s'].
    cbn [fst snd get children spread_children] in *.
    rewrite H3. exists n'. repeat split; [exact G1| lia | lia].
Qed.

(** [hit] keeps the existing children where they are. *)
Hypothesis hit_keep :
  forall n s i c,
    nth_error (children n) i = Some c ->
    nth_error (children (fst (hit n s))) i = Some c.

(** Every node below a node handed to [hit] is the same object, with the same
    subtree, in the result. *)
Lemma below_hit_same (p : list nat) :
  forall t s n,
    get p t = Some n -> visited key p t = false ->
    get p (fst (pathCopy key hit t s)) = Some n.
Proof.
  induction p as [|i p IH]; intros t s n Hg Hv.
  - discriminate.
  - destruct t as [r ti tn cs e v]. cbn [get visited children id] in *.
    cbn [pathCopy id children].
    destruct (nth_error cs i) as [c|] eqn:Hc; [|discriminate].
    destruct (strict_eq ti key).
    + cbn [get]. erewrite hit_keep; [exact Hg|exact Hc].
    + unfold_alloc.
      destruct (mapM_nth (pathCopy key hit) pathCopy_mono cs (S s) i Hc)
        as (si & H1 & H2 & H3).
      specialize (IH c si n Hg Hv).
      destruct (mapM (pathCopy key hit) cs (S s)) as [cs' s'].
      cbn [fst snd get children spread_children] in *.
      now rewrite H3.
Qed.

End PathCopyFacts.

(** ** Facts on lists and ids *)

Lemma NoDup_app_disjoint {A} (l1 l2 : list A) (a : A) :
  NoDup (l1 ++ l2) -> In a l1 -> ~ In a l2.
Proof.
  induction l1 as [|x l1 IH]; cbn; intros ND H1 H2; [contradiction|].
  apply NoDup_cons_iff in ND as [Hx ND].
  destruct H1 as [->|H1].
  - apply Hx, in_or_app. now right.
  - now apply IH.
Qed.

Lemma map_modify_nth {A} (g h : A -> A) (l : list A) (i : nat) (x : A) :
  nth_error l i = Some x ->
  g x = h x ->
  (forall j y, j <> i -> nth_error l j = Some y -> g y = y) ->
  map g l = modify_nth i h l.
Proof.
  revert i. induction l as [|a l IH]; intros i Hi Hx Hrest.
  - destruct i; discriminate.
  - destruct i as [|i]; cbn [nth_error map modify_nth] in *.
    + injection Hi as ->. rewrite Hx. f_equal.
      rewrite <- (map_id l) at 2. apply map_ext_in. intros y Hy.
      destruct (In_nth_error _ _ Hy) as [j Hj].
      apply (Hrest (S j)); [discriminate|exact Hj].
    + rewrite (Hrest 0 a); [|discriminate|reflexivity]. f_equal.
      apply IH; [exact Hi|exact Hx|].
      intros j y Hj Hy. apply (Hrest (S j)); [congruence|exact Hy].
Qed.

Lemma nth_error_modify_nth {A} (f : A -> A) (l : list A) (i : nat) (x : A) :
  nth_error l i = Some x -> nth_error (modify_nth i f l) i = Some (f x).
Proof.
  revert i. induction l as [|a l IH]; intros [|i] H; try discriminate.
  - injection H as ->. reflexivity.
  - cbn [modify_nth nth_error] in *. now apply IH.
Qed.

Lemma get_In_ids (p : list nat) :
  forall t n, get p t = Some n -> In (id n) (ids t).
Proof.
  induction p as [|i p IH]; intros [r ti tn cs e v] n H; cbn [get children] in H.
  - injection H as <-. now left.
  - destruct (nth_error cs i) as [c|] eqn:Hc; [|discriminate].
    cbn [ids id children]. right. apply in_flat_map.
    exists c. split; [eapply nth_error_In; eassumption|now apply IH].
Qed.

Lemma In_ids_get (k : JSString) (t : FlowchartNode) :
  In k (ids t) -> exists p n, get p t = Some n /\ id n = k.
Proof.
  induction t as [r ti tn cs e v IH] using FlowchartNode_tree_ind.
  cbn [ids id children]. intros [<-|H].
  - exists [], (mkNode r ti tn cs e v). now split.
  - apply in_flat_map in H as (c & Hc & Hk).
    rewrite Forall_forall in IH. destruct (IH c Hc Hk) as (p & n & Hg & Hn).
    destruct (In_nth_error _ _ Hc) as [i Hi].
    exists (i :: p), n. cbn [get children]. rewrite Hi. now split.
Qed.

Lemma NoDup_child_ids (cs : list FlowchartNode) (i : nat) (c : FlowchartNode) :
  NoDup (flat_map ids cs) -> nth_error cs i = Some c -> NoDup (ids c).
Proof.
  revert i. induction cs as [|a cs IH]; intros [|i] ND H; try discriminate;
    cbn [flat_map nth_error] in *.
  - injection H as ->. eapply NoDup_app_remove_r; eassumption.
  - eapply IH; [eapply NoDup_app_remove_l; eassumption|exact H].
Qed.

Lemma child_ids_disjoint (cs : list FlowchartNode) :
  NoDup (flat_map ids cs) ->
  forall i j c c' k,
    nth_error cs i = Some c -> nth_error cs j = Some c' -> i <> j ->
    In k (ids c) -> ~ In k (ids c').
Proof.
  induction cs as [|a cs IH]; intros ND i j c c' k Hi Hj Hij Hk Hk'.
  - destruct i; discriminate.
  - cbn [flat_map] in ND.
    destruct i as [|i], j as [|j]; cbn [nth_error] in *.
    + congruence.
    + injection Hi as ->.
      apply (NoDup_app_disjoint _ _ k ND Hk).
      apply in_flat_map. exists c'. split; [eapply nth_error_In; eassumption|assumption].
    + injection Hj as ->.
      apply (NoDup_app_disjoint _ _ k ND Hk').
      apply in_flat_map. exists c. split; [eapply nth_error_In; eassumption|assumption].
    + apply (IH (NoDup_app_remove_l _ _ ND) i j c c' k); auto.
Qed.

Lemma content_ids (t : FlowchartNode) : ids (content t) = ids t.
Proof.
  induction t as [r ti tn cs e v IH] using FlowchartNode_tree_ind.
  cbn [content ids id children]. f_equal.
  induction IH as [|c l Hc _ IHl]; cbn [map flat_map]; [reflexivity|].
  now rewrite Hc, IHl.
Qed.

Lemma content_shape (t : FlowchartNode) : shape (content t) = shape t.
Proof.
  induction t as [r ti tn cs e v IH] using FlowchartNode_tree_ind.
  cbn [content shape children]. f_equal.
  induction IH as [|c l Hc _ IHl]; cbn [map]; [reflexivity|].
  now rewrite Hc, IHl.
Qed.

Lemma get_content (p : list nat) :
  forall t, get p (content t) = option_map content (get p t).
Proof.
  induction p as [|i p IH]; intros [r ti tn cs e v]; [reflexivity|].
  cbn [get content children]. rewrite nth_error_map.
  destruct (nth_error cs i) as [c|]; cbn [option_map]; [apply IH|reflexivity].
Qed.

(** ** The traversal on values *)

Section PathCopyValue.

Variable key : JSString.
Variable hit : FlowchartNode -> Alloc FlowchartNode.
Variable hitv : FlowchartNode -> FlowchartNode.

Hypothesis hit_value :
  forall n s, content (fst (hit n s)) = content (hitv n).

Lemma content_mapM (f : FlowchartNode -> Alloc FlowchartNode)
  (g : FlowchartNode -> FlowchartNode) (l : list FlowchartNode) :
  Forall (fun c => forall s, content (fst (f c s)) = content (g c)) l ->
  forall s, map content (fst (mapM f l s)) = map content (map g l).
Proof.
  induction 1 as [|c l Hc _ IHl]; intros s; cbn [mapM map]; unfold_alloc.
  - reflexivity.
  - specialize (Hc s). destruct (f c s) as [y s1].
    specialize (IHl s1). destruct (mapM f l s1) as [ys s2].
    cbn [fst map] in *. now rewrite Hc, IHl.
Qed.

(** The allocating traversal computes the value traversal. *)
Lemma content_pathCopy (t : FlowchartNode) :
  forall s,
    content (fst (pathCopy key hit t s)) = content (pathCopy_value key hitv t).
Proof.
  induction t as [r ti tn cs e v IH] using FlowchartNode_tree_ind.
  intros s. cbn [pathCopy pathCopy_value id children].
  destruct (strict_eq ti key); [apply hit_value|].
  unfold_alloc.
  pose proof (content_mapM _ _ IH (S s)) as E.
  destruct (mapM (pathCopy key hit) cs (S s)) as [cs' s'].
  cbn [fst snd] in *. cbn [content spread_children children id name isEditing
                            childrenVisible].
  now rewrite E.
Qed.

(** A key that no node carries: nothing changes. *)
Lemma pathCopy_value_absent (t : FlowchartNode) :
  ~ In key (ids t) -> pathCopy_value key hitv t = t.
Proof.
  induction t as [r ti tn cs e v IH] using FlowchartNode_tree_ind.
  cbn [ids id children pathCopy_value]. intros H.
  assert (Hne : strict_eq ti key = false).
  { apply strict_eq_false. intros ->. apply H. now left. }
  rewrite Hne. unfold spread_children. cbn [obj id name isEditing childrenVisible].
  f_equal.
  assert (Hcs : ~ In key (flat_map ids cs)) by (intros F; apply H; now right).
  clear H Hne. induction IH as [|c l Hc _ IHl]; cbn [map]; [reflexivity|].
  cbn [flat_map] in Hcs. rewrite Hc, IHl; [reflexivity| |];
    intros F; apply Hcs, in_or_app; auto.
Qed.

(** With pairwise distinct ids, the traversal changes the one node that
    carries the key, and nothing else. *)
Lemma pathCopy_value_modifyAt (p : list nat) :
  forall t n,
    NoDup (ids t) -> get p t = Some n -> id n = key ->
    pathCopy_value key hitv t = modifyAt p hitv t.
Proof.
  induction p as [|i p IH]; intros [r ti tn cs e v] n ND Hg Hn.
  - cbn [get] in Hg. injection Hg as <-. cbn [id] in Hn.
    cbn [pathCopy_value modifyAt id]. now rewrite Hn, strict_eq_refl.
  - cbn [get children] in Hg.
    destruct (nth_error cs i) as [c|] eqn:Hc; [|discriminate].
    cbn [ids id children] in ND. apply NoDup_cons_iff in ND as [Hti ND].
    pose proof (get_In_ids _ _ Hg) as Hk. rewrite Hn in Hk.
    assert (Hne : strict_eq ti key = false).
    { apply strict_eq_false. intros ->. apply Hti, in_flat_map.
      exists c. split; [eapply nth_error_In; eassumption|exact Hk]. }
    cbn [pathCopy_value modifyAt id children obj]. rewrite Hne. f_equal.
    apply map_modify_nth with (x := c); [exact Hc| |].
    + apply (IH c n); [eapply NoDup_child_ids; eassumption|exact Hg|exact Hn].
    + intros j y Hj Hy. apply pathCopy_value_absent.
      apply (@child_ids_disjoint cs ND i j c y key Hc Hy); [congruence|exact Hk].
Qed.

End PathCopyValue.

(** ** The two traversals of [Index] *)

Lemma hit_update_new updates n s :
  s <= obj (fst (hit_update updates n s))
  /\ obj (fst (hit_update updates n s)) < snd (hit_update updates n s).
Proof. cbn. lia. Qed.

Lemma hit_update_keep updates :
  u_children updates = None ->
  forall n s i c,
    nth_error (children n) i = Some c ->
    nth_error (children (fst (hit_update updates n s))) i = Some c.
Proof. intros Hu n s i c H. cbn. now rewrite Hu. Qed.

Lemma hit_update_value updates n s :
  content (fst (hit_update updates n s)) = content (hitv_update updates n).
Proof. reflexivity. Qed.

Lemma hit_addChild_new childId n s :
  s <= obj (fst (hit_addChild childId n s))
  /\ obj (fst (hit_addChild childId n s)) < snd (hit_addChild childId n s).
Proof. cbn. lia. Qed.

Lemma hit_addChild_keep childId n s i c :
  nth_error (children n) i = Some c ->
  nth_error (children (fst (hit_addChild childId n s))) i = Some c.
Proof.
  intros H. cbn. rewrite nth_error_app1; [exact H|].
  apply nth_error_Some. congruence.
Qed.

Lemma hit_addChild_value childId n s :
  content (fst (hit_addChild childId n s)) = content (hitv_addChild childId n).
Proof.
  cbn. now rewrite !map_app.
Qed.

Lemma updateNode_flowchart nodeId updates st :
  flowchart (updateNode nodeId updates st)
  = fst (pathCopy nodeId (hit_update updates) (flowchart st) (next_ref st)).
Proof.
  unfold updateNode. rewrite updateNodeRecursive_pathCopy.
  now destruct (pathCopy nodeId (hit_update updates) (flowchart st) (next_ref st)).
Qed.

Lemma addChild_flowchart parentId e st :
  flowchart (addChild parentId e st)
  = fst (pathCopy parentId (hit_addChild (makeChildId e)) (flowchart st)
           (next_ref st)).
Proof.
  unfold addChild. rewrite addChildRecursive_pathCopy.
  now destruct (pathCopy parentId (hit_addChild (makeChildId e)) (flowchart st)
                  (next_ref st)).
Qed.

Lemma updateNode_content nodeId updates st :
  content (flowchart (updateNode nodeId updates st))
  = content (pathCopy_value nodeId (hitv_update updates) (flowchart st)).
Proof.
  rewrite updateNode_flowchart.
  apply content_pathCopy. apply hit_update_value.
Qed.

Lemma addChild_content parentId e st :
  content (flowchart (addChild parentId e st))
  = content (pathCopy_value parentId (hitv_addChild (makeChildId e))
               (flowchart st)).
Proof.
  rewrite addChild_flowchart.
  apply content_pathCopy. apply hit_addChild_value.
Qed.

Lemma visited_false_iff (key : JSString) (p : list nat) :
  forall t n,
    get p t = Some n -> (visited key p t = false <-> below_key key p t).
Proof.
  induction p as [|i p IH]; intros [r ti tn cs e v] n Hg.
  - split; [discriminate|].
    intros (q & r' & m & Hp & Hr & _). symmetry in Hp.
    apply app_eq_nil in Hp as [_ ->]. contradiction.
  - cbn [get visited children id] in *.
    destruct (nth_error cs i) as [c|] eqn:Hc; [|discriminate].
    destruct (strict_eq ti key) eqn:Hk.
    + split; [|reflexivity]. intros _.
      exists [], (i :: p), (mkNode r ti tn cs e v).
      repeat split; [discriminate|now apply strict_eq_true].
    + rewrite (IH c n Hg). split.
      * intros (q & r' & m & Hp & Hr & Hq & Hm).
        exists (i :: q), r', m. cbn [get children]. rewrite Hc, Hp.
        repeat split; assumption.
      * intros (q & r' & m & Hp & Hr & Hq & Hm).
        destruct q as [|j q].
        -- cbn [get] in Hq. injection Hq as <-. cbn [id] in Hm.
           apply strict_eq_false in Hk. contradiction.
        -- cbn [app] in Hp. injection Hp as <- ->.
           cbn [get children] in Hq. rewrite Hc in Hq.
           exists q, r', m. repeat split; assumption.
Qed.

Lemma visited_true_iff (key : JSString) (p : list nat) (t n : FlowchartNode) :
  get p t = Some n -> (visited key p t = true <-> ~ below_key key p t).
Proof.
  intros Hg. rewrite <- (visited_false_iff key p t Hg).
  destruct (visited key p t); split; congruence.
Qed.

(** ** Content of a node *)

Lemma fields_content (t : FlowchartNode) : fields (content t) = fields t.
Proof. now destruct t. Qed.

Lemma children_content_length (t : FlowchartNode) :
  length (children (content t)) = length (children t).
Proof. destruct t. cbn. apply length_map. Qed.

Lemma get_of_content_eq (a b : FlowchartNode) (p : list nat) (n : FlowchartNode) :
  content a = content b -> get p b = Some n ->
  exists n', get p a = Some n' /\ content n' = content n.
Proof.
  intros E Hb. pose proof (get_content p a) as Ha.
  rewrite E, get_content, Hb in Ha. cbn [option_map] in Ha.
  destruct (get p a) as [n'|]; [|discriminate].
  cbn [option_map] in Ha. injection Ha as Ha. exists n'. split; congruence.
Qed.

(** A node that the traversal reaches is replaced by its own traversal. *)
Lemma get_pathCopy_value_visited (key : JSString)
  (hitv : FlowchartNode -> FlowchartNode) (p : list nat) :
  forall t n,
    get p t = Some n -> visited key p t = true ->
    get p (pathCopy_value key hitv t) = Some (pathCopy_value key hitv n).
Proof.
  induction p as [|i p IH]; intros [r ti tn cs e v] n Hg Hv.
  - cbn [get] in *. congruence.
  - cbn [get visited children id] in *. cbn [pathCopy_value id children].
    destruct (strict_eq ti key); [discriminate|].
    destruct (nth_error cs i) as [c|] eqn:Hc; [|discriminate].
    cbn [get spread_children children]. rewrite nth_error_map, Hc.
    cbn [option_map]. now apply IH.
Qed.

(** What a rebuilt node holds: the target its image under [hitv]; any other
    node its own fields and as many children as before, and, if the key does
    not occur in its subtree, the whole subtree as it was. *)
Lemma pathCopy_value_node (key : JSString)
  (hitv : FlowchartNode -> FlowchartNode) (n : FlowchartNode) :
  (id n = key -> pathCopy_value key hitv n = hitv n)
  /\ (id n <> key ->
      fields (pathCopy_value key hitv n) = fields n
      /\ length (children (pathCopy_value key hitv n)) = length (children n)
      /\ (~ In key (ids n) -> pathCopy_value key hitv n = n)).
Proof.
  destruct n as [r i nm cs e v]. cbn [id]. split.
  - intros ->. cbn [pathCopy_value id]. now rewrite strict_eq_refl.
  - intros H. split; [|split].
    + cbn [pathCopy_value id]. apply strict_eq_false in H. now rewrite H.
    + cbn [pathCopy_value id children]. apply strict_eq_false in H. rewrite H.
      cbn. apply length_map.
    + apply pathCopy_value_absent.
Qed.

(** ** Reuse by reference (claim C1) *)

Lemma not_on_path_1_0 : ~ on_path [1] [0].
Proof. intros [r H]. discriminate. Qed.

(** C1, counterexample: in the root with two children, updating the first
    child, or adding a child to it, rebuilds the second child, which is not
    on the path from the root to the first, as a new object. *)
Lemma C1_sibling_rebuilt :
  ~ update_shares_off_path two_children (makeChildId env1) start_editing
  /\ ~ addChild_shares_off_path two_children (makeChildId env1) env2.
Proof.
  split; intros H.
  - specialize (H [0]); cbn in H.
    specialize (H _ eq_refl eq_refl [1]); cbn in H.
    specialize (H _ eq_refl not_on_path_1_0). discriminate.
  - specialize (H [0]); cbn in H.
    specialize (H _ eq_refl eq_refl [1]); cbn in H.
    specialize (H _ eq_refl not_on_path_1_0). discriminate.
Qed.

(** *** The objects of a tree are older than the next allocation *)

Lemma allocated_before_weaken s s' t :
  s <= s' -> allocated_before s t -> allocated_before s' t.
Proof. intros Hs H r Hr. specialize (H r Hr). lia. Qed.

Lemma allocated_before_node s r i n cs e v :
  allocated_before s (mkNode r i n cs e v)
  <-> r < s /\ Forall (allocated_before s) cs.
Proof.
  unfold allocated_before. cbn [refs obj children]. rewrite Forall_forall.
  split.
  - intros H. split; [apply H; now left|].
    intros c Hc x Hx. apply H. right. apply in_flat_map. now exists c.
  - intros [Hr Hcs] x [<-|Hx]; [exact Hr|].
    apply in_flat_map in Hx as (c & Hc & Hx). now apply (Hcs c).
Qed.

Section PathCopyAllocated.

Variable key : JSString.
Variable hit : FlowchartNode -> Alloc FlowchartNode.

Hypothesis hit_new :
  forall n s, s <= obj (fst (hit n s)) /\ obj (fst (hit n s)) < snd (hit n s).

Hypothesis hit_allocated :
  forall n s, allocated_before s n ->
              allocated_before (snd (hit n s)) (fst (hit n s)).

Lemma pathCopy_allocated (t : FlowchartNode) :
  forall s, allocated_before s t ->
            allocated_before (snd (pathCopy key hit t s))
              (fst (pathCopy key hit t s)).
Proof.
  induction t as [r ti tn cs e v IH] using FlowchartNode_tree_ind.
  intros s Ht. cbn [pathCopy id children].
  destruct (strict_eq ti key); [now apply hit_allocated|].
  unfold_alloc. apply allocated_before_node in Ht as [_ Hcs].
  assert (M : forall s0, s <= s0 ->
            Forall (allocated_before (snd (mapM (pathCopy key hit) cs s0)))
              (fst (mapM (pathCopy key hit) cs s0))
            /\ s0 <= snd (mapM (pathCopy key hit) cs s0)).
  { clear -IH Hcs hit_new.
    induction IH as [|c l Hc _ IHl]; intros s0 Hs0; cbn [mapM]; unfold_alloc.
    - split; [constructor|apply Nat.le_refl].
    - apply Forall_cons_iff in Hcs as [Hc0 Hl].
      specialize (Hc s0 (allocated_before_weaken Hs0 Hc0)).
      pose proof (pathCopy_mono key hit hit_new c s0) as Hm.
      destruct (pathCopy key hit c s0) as [y s1]. cbn [fst snd] in *.
      destruct (IHl Hl s1) as [Hys Hs1]; [lia|].
      destruct (mapM (pathCopy key hit) l s1) as [ys s2]. cbn [fst snd] in *.
      split; [|lia]. constructor; [|exact Hys].
      now apply (allocated_before_weaken Hs1). }
  destruct (M (S s)) as [Hcs' Hs']; [lia|].
  destruct (mapM (pathCopy key hit) cs (S s)) as [cs' s']. cbn [fst snd] in *.
  apply allocated_before_node. split; [lia|exact Hcs'].
Qed.

End PathCopyAllocated.

Lemma hit_addChild_allocated childId n s :
  allocated_before s n ->
  allocated_before (snd (hit_addChild childId n s))
    (fst (hit_addChild childId n s)).
Proof.
  destruct n as [r i nm cs e v]. intros H.
  apply allocated_before_node in H as [_ Hcs]. cbn.
  apply allocated_before_node. split; [lia|].
  apply Forall_app. split.
  - eapply Forall_impl; [|exact Hcs].
    intros c Hc. apply (allocated_before_weaken (s := s)); [lia|exact Hc].
  - constructor; [|constructor]. apply allocated_before_node. split; [lia|constructor].
Qed.

Lemma addChild_allocated parentId e st :
  allocated_before (next_ref st) (flowchart st) ->
  allocated_before (next_ref (addChild parentId e st))
    (flowchart (addChild parentId e st)).
Proof.
  intros H. unfold addChild. rewrite addChildRecursive_pathCopy.
  pose proof (@pathCopy_allocated parentId (hit_addChild (makeChildId e))
                (hit_addChild_new (makeChildId e))
                (@hit_addChild_allocated (makeChildId e))
                (flowchart st) (next_ref st) H) as A.
  destruct (pathCopy parentId (hit_addChild (makeChildId e)) (flowchart st)
              (next_ref st)).
  exact A.
Qed.

(** Every state reached from the initial one by [addChild] calls keeps its
    objects older than the next allocation. *)
Lemma addChildren_allocated calls :
  forall st,
    allocated_before (next_ref st) (flowchart st) ->
    allocated_before (next_ref (addChildren calls st))
      (flowchart (addChildren calls st)).
Proof.
  induction calls as [|[parentId e] calls IH]; intros st H; cbn [addChildren].
  - exact H.
  - apply IH. now apply addChild_allocated.
Qed.

Lemma initial_allocated : allocated_before (next_ref initial) (flowchart initial).
Proof. intros r [<-|[]]. cbn. lia. Qed.

Section RebuiltNode.

Variable key : JSString.
Variable hit : FlowchartNode -> Alloc FlowchartNode.
Variable hitv : FlowchartNode -> FlowchartNode.
Variable s : ref.
Variable t : FlowchartNode.

Hypothesis hit_new :
  forall n s, s <= obj (fst (hit n s)) /\ obj (fst (hit n s)) < snd (hit n s).
Hypothesis hit_value :
  forall n s, content (fst (hit n s)) = content (hitv n).
Hypothesis t_allocated : allocated_before s t.

(** A node that the traversal reaches is, in the result, a new object that
    holds the content of its own traversal. *)
Lemma visited_rebuilt (p : list nat) (n : FlowchartNode) :
  get p t = Some n -> visited key p t = true ->
  exists n',
    get p (fst (pathCopy key hit t s)) = Some n'
    /\ ~ In (obj n') (refs t)
    /\ content n' = content (pathCopy_value key hitv n).
Proof.
  intros Hg Hv.
  destruct (visited_new key hit hit_new p t s Hg Hv) as (n' & G1 & G2 & _).
  exists n'. split; [exact G1|]. split.
  - intros F. apply t_allocated in F. lia.
  - pose proof (@get_pathCopy_value_visited key hitv p t n Hg Hv) as Gv.
    destruct (@get_of_content_eq (fst (pathCopy key hit t s))
                (pathCopy_value key hitv t) p (pathCopy_value key hitv n)
                (@content_pathCopy key hit hitv hit_value t s) Gv)
      as (n'' & G'' & E).
    congruence.
Qed.

End RebuiltNode.

(** C1, amended: [updateNode] (with updates that carry no [children]) and
    [addChild] reuse by reference exactly the nodes strictly below a node
    they hand to the update or the insertion: the target's existing children
    and their subtrees are the same objects afterwards.  Every other node is
    a new object that the old tree does not contain: the target holds its
    merge with the updates (for [addChild], itself with the new leaf put at
    the end of its children); any other rebuilt node, an ancestor or a node
    of a sibling subtree, has its own fields and as many children as before,
    and a rebuilt subtree in which the target id does not occur has its
    whole content as before. *)
Theorem C1_reuse_only_below_target (st : Index) (p : list nat)
  (n : FlowchartNode) :
  allocated_before (next_ref st) (flowchart st) ->
  get p (flowchart st) = Some n ->
  (forall nodeId updates,
      u_children updates = None ->
      let t' := flowchart (updateNode nodeId updates st) in
      (below_key nodeId p (flowchart st) -> get p t' = Some n)
      /\ (~ below_key nodeId p (flowchart st) ->
          exists n',
            get p t' = Some n'
            /\ ~ In (obj n') (refs (flowchart st))
            /\ (id n = nodeId ->
                content n' = content (spread_updates 0 n updates))
            /\ (id n <> nodeId ->
                fields n' = fields n
                /\ length (children n') = length (children n)
                /\ (~ In nodeId (ids n) -> content n' = content n))))
  /\ (forall parentId e,
         let t' := flowchart (addChild parentId e st) in
         (below_key parentId p (flowchart st) -> get p t' = Some n)
         /\ (~ below_key parentId p (flowchart st) ->
             exists n',
               get p t' = Some n'
               /\ ~ In (obj n') (refs (flowchart st))
               /\ (id n = parentId ->
                   content n' = content (append_child (new_leaf e n) n))
               /\ (id n <> parentId ->
                   fields n' = fields n
                   /\ length (children n') = length (children n)
                   /\ (~ In parentId (ids n) -> content n' = content n)))).
Proof.
  intros Hst Hg.
  assert (R : forall key hit hitv,
             (forall m s, s <= obj (fst (hit m s))
                          /\ obj (fst (hit m s)) < snd (hit m s)) ->
             (forall m s, content (fst (hit m s)) = content (hitv m)) ->
             ~ below_key key p (flowchart st) ->
             exists n',
               get p (fst (pathCopy key hit (flowchart st) (next_ref st)))
               = Some n'
               /\ ~ In (obj n') (refs (flowchart st))
               /\ (id n = key -> content n' = content (hitv n))
               /\ (id n <> key ->
                   fields n' = fields n
                   /\ length (children n') = length (children n)
                   /\ (~ In key (ids n) -> content n' = content n))).
  { intros key hit hitv Hnew Hval Hb.
    apply (visited_true_iff key p (flowchart st) Hg) in Hb.
    destruct (@visited_rebuilt key hit hitv (next_ref st) (flowchart st)
                Hnew Hval Hst p n Hg Hb) as (n' & G & F & E).
    destruct (pathCopy_value_node key hitv n) as [T O].
    exists n'. split; [exact G|]. split; [exact F|]. split.
    - intros Hk. now rewrite E, (T Hk).
    - intros Hk. destruct (O Hk) as (O1 & O2 & O3). split; [|split].
      + now rewrite <- (fields_content n'), E, fields_content.
      + now rewrite <- (children_content_length n'), E, children_content_length.
      + intros Hout. now rewrite E, (O3 Hout). }
  split.
  - intros nodeId updates Hu t'. subst t'. rewrite updateNode_flowchart. split.
    + intros Hb. apply (visited_false_iff nodeId p (flowchart st) Hg) in Hb.
      apply below_hit_same;
        [apply hit_update_new|now apply hit_update_keep|exact Hg|exact Hb].
    + intros Hb.
      apply (R nodeId (hit_update updates) (hitv_update updates));
        [apply hit_update_new|apply hit_update_value|exact Hb].
  - intros parentId e t'. subst t'. rewrite addChild_flowchart. split.
    + intros Hb. apply (visited_false_iff parentId p (flowchart st) Hg) in Hb.
      apply below_hit_same;
        [apply hit_addChild_new|apply hit_addChild_keep|exact Hg|exact Hb].
    + intros Hb.
      destruct (R parentId (hit_addChild (makeChildId e))
                  (hitv_addChild (makeChildId e))
                  (hit_addChild_new (makeChildId e))
                  (hit_addChild_value (makeChildId e)) Hb)
        as (n' & G & F & T & O).
      exists n'. split; [exact G|]. split; [exact F|]. split; [|exact O].
      intros Hk. rewrite (T Hk). destruct n. reflexivity.
Qed.

(** C1, witness: in the root with two children, an update of the root leaves
    the second child the object it was; an update of the first child makes
    the second child a new object with the content it had. *)
Lemma C1_reuse_only_below_target_witness :
  get [1] (flowchart (updateNode (str "root") start_editing two_children))
  = get [1] (flowchart two_children)
  /\ exists n n',
      get [1] (flowchart two_children) = Some n
      /\ get [1] (flowchart (updateNode (makeChildId env1) start_editing
                               two_children))
         = Some n'
      /\ ~ In (obj n') (refs (flowchart two_children))
      /\ content n' = content n.
Proof.
  assert (Ha : allocated_before (next_ref two_children) (flowchart two_children)).
  { intros r H. vm_compute in H. vm_compute.
    repeat (destruct H as [<-|H]; [lia|]). contradiction. }
  destruct (@C1_reuse_only_below_target two_children [1] _ Ha eq_refl) as [U _].
  split.
  - destruct (U (str "root") start_editing eq_refl) as [Same _].
    apply Same. exists [], [1], (flowchart two_children).
    repeat split. discriminate.
  - destruct (U (makeChildId env1) start_editing eq_refl) as [_ New].
    assert (Hb : ~ below_key (makeChildId env1) [1] (flowchart two_children)).
    { intros (q & r & m & Hp & Hr & Hq & Hm).
      destruct q as [|j q].
      - cbn in Hq. injection Hq as <-. vm_compute in Hm. discriminate.
      - destruct q; [|destruct q; discriminate].
        cbn in Hp. injection Hp as <- <-. contradiction. }
    destruct (New Hb) as (n' & G & F & _ & O).
    eexists. exists n'. split; [reflexivity|]. split; [exact G|].
    split; [exact F|].
    apply O; [vm_compute; discriminate|].
    vm_compute. intros [H|[]]. discriminate.
Defined.

(** ** A missing id (claim C5) *)

(** C5: for an id that no node of the tree carries, [updateNode] and
    [addChild] return the tree unchanged: the same fields at every node, the
    same children in the same order; the truncate flag is untouched. *)
Theorem C5_missing_id_is_identity (st : Index) (i : JSString)
  (updates : Updates) (e : Env) :
  ~ In i (ids (flowchart st)) ->
  content (flowchart (updateNode i updates st)) = content (flowchart st)
  /\ content (flowchart (addChild i e st)) = content (flowchart st)
  /\ truncateText (updateNode i updates st) = truncateText st
  /\ truncateText (addChild i e st) = truncateText st.
Proof.
  intros H. repeat split.
  - rewrite updateNode_content. now rewrite pathCopy_value_absent.
  - rewrite addChild_content. now rewrite pathCopy_value_absent.
  - unfold updateNode.
    now destruct (updateNodeRecursive i updates (flowchart st) (next_ref st)).
  - unfold addChild.
    now destruct (addChildRecursive i (makeChildId e) (flowchart st) (next_ref st)).
Qed.

(** C5, witness: the id ["zzz"] in the root with two children. *)
Lemma C5_missing_id_is_identity_witness :
  content (flowchart (updateNode (str "zzz") start_editing two_children))
  = content (flowchart two_children)
  /\ content (flowchart (addChild (str "zzz") env1 two_children))
     = content (flowchart two_children).
Proof.
  assert (H : ~ In (str "zzz") (ids (flowchart two_children))).
  { vm_compute. intros [H|[H|[H|[]]]]; discriminate. }
  destruct (@C5_missing_id_is_identity two_children (str "zzz") start_editing
              env1 H) as (A & B & _).
  exact (conj A B).
Defined.

(** ** Shape under [updateNode] (claim C6) *)

Section PathCopyValueShape.

Variable key : JSString.
Variable hitv : FlowchartNode -> FlowchartNode.
Hypothesis hitv_children : forall m, children (hitv m) = children m.

Lemma pathCopy_value_shape (t : FlowchartNode) :
  shape (pathCopy_value key hitv t) = shape t.
Proof.
  induction t as [r ti tn cs e v IH] using FlowchartNode_tree_ind.
  cbn [pathCopy_value id children].
  destruct (strict_eq ti key).
  - destruct (hitv (mkNode r ti tn cs e v)) eqn:E.
    pose proof (hitv_children (mkNode r ti tn cs e v)) as K.
    rewrite E in K. cbn [children] in K. cbn [shape children]. now rewrite K.
  - cbn [shape spread_children children]. f_equal.
    induction IH as [|c l Hc _ IHl]; cbn [map]; [reflexivity|].
    now rewrite Hc, IHl.
Qed.

Lemma pathCopy_value_get (p : list nat) :
  forall t n,
    get p t = Some n ->
    exists n', get p (pathCopy_value key hitv t) = Some n'
               /\ length (children n') = length (children n)
               /\ (id n <> key -> fields n' = fields n).
Proof.
  induction p as [|i p IH]; intros [r ti tn cs e v] n Hg.
  - cbn [get] in Hg. injection Hg as <-. cbn [pathCopy_value id children get].
    destruct (strict_eq ti key) eqn:E; eexists; split; try reflexivity; split.
    + now rewrite hitv_children.
    + apply strict_eq_true in E. cbn [id]. congruence.
    + cbn. apply length_map.
    + reflexivity.
  - cbn [get children] in Hg.
    destruct (nth_error cs i) as [c|] eqn:Hc; [|discriminate].
    cbn [pathCopy_value id children]. destruct (strict_eq ti key).
    + exists n. cbn [get]. rewrite hitv_children. cbn [children]. rewrite Hc.
      repeat split. exact Hg.
    + cbn [get spread_children children]. rewrite nth_error_map, Hc.
      cbn [option_map]. now apply IH.
Qed.

End PathCopyValueShape.

Lemma hitv_update_children updates :
  u_children updates = None ->
  forall m, children (hitv_update updates m) = children m.
Proof. intros H m. cbn. now rewrite H. Qed.

(** C6, counterexample: updates are a [Partial<FlowchartNode>] and may carry
    [children]; with [{ children: [] }] the root of the two-children tree
    loses both edges. *)
Lemma C6_children_update_changes_shape :
  ~ update_keeps_shape two_children (str "root") drop_children.
Proof. unfold update_keeps_shape. vm_compute. discriminate. Qed.

(** C6, amended: for updates that carry no [children], [updateNode] leaves the
    edges as they are, in every tree: every node keeps its position, its
    number of children, and, unless its id is [nodeId], its own fields.  In a
    tree with pairwise distinct ids the result is the old tree with the one
    node of that id replaced by its merge with the updates. *)
Theorem C6_update_keeps_shape (st : Index) (nodeId : JSString)
  (updates : Updates) :
  u_children updates = None ->
  let t := flowchart st in
  let t' := flowchart (updateNode nodeId updates st) in
  shape t' = shape t
  /\ (forall p n,
         get p t = Some n ->
         exists n', get p t' = Some n'
                    /\ length (children n') = length (children n)
                    /\ (id n <> nodeId -> fields n' = fields n))
  /\ (forall p n,
         NoDup (ids t) -> get p t = Some n -> id n = nodeId ->
         content t'
         = content (modifyAt p (fun m => spread_updates (obj m) m updates) t)).
Proof.
  intros Hu t t'. subst t t'.
  pose proof (updateNode_content nodeId updates st) as E.
  split; [|split].
  - rewrite <- content_shape, E, content_shape.
    apply pathCopy_value_shape. now apply hitv_update_children.
  - intros p n Hg.
    destruct (pathCopy_value_get nodeId (hitv_update updates)
                (hitv_update_children updates Hu) p (flowchart st) Hg)
      as (n1 & G1 & G2 & G3).
    destruct (get_of_content_eq _ _ p E G1) as (n' & G' & En).
    exists n'. split; [exact G'|]. split.
    + rewrite <- (children_content_length n'), En, children_content_length.
      exact G2.
    + intros Hne. rewrite <- (fields_content n'), En, fields_content.
      now apply G3.
  - intros p n ND Hg Hn. rewrite E.
    now rewrite (@pathCopy_value_modifyAt nodeId (hitv_update updates) p
                 (flowchart st) n ND Hg Hn).
Qed.

(** C6, witness: starting to edit the first of two children. *)
Lemma C6_update_keeps_shape_witness :
  shape (flowchart (updateNode (makeChildId env1) start_editing two_children))
  = shape (flowchart two_children).
Proof.
  exact (proj1 (@C6_update_keeps_shape two_children (makeChildId env1)
                  start_editing eq_refl)).
Defined.

(** ** Replacing one node *)

Lemma get_modifyAt (f : FlowchartNode -> FlowchartNode) (p : list nat) :
  forall t n, get p t = Some n -> get p (modifyAt p f t) = Some (f n).
Proof.
  induction p as [|i p IH]; intros [r ti tn cs e v] n Hg.
  - cbn in *. congruence.
  - cbn [get children] in Hg.
    destruct (nth_error cs i) as [c|] eqn:Hc; [|discriminate].
    cbn [modifyAt get spread_children children].
    rewrite (nth_error_modify_nth _ _ _ Hc). now apply IH.
Qed.

Lemma modify_nth_ext {A} (f g : A -> A) (l : list A) (i : nat) (x : A) :
  nth_error l i = Some x -> f x = g x -> modify_nth i f l = modify_nth i g l.
Proof.
  revert i. induction l as [|a l IH]; intros [|i] H E; try discriminate.
  - injection H as ->. cbn. now rewrite E.
  - cbn [modify_nth nth_error] in *. f_equal. now apply IH.
Qed.

Lemma modifyAt_ext (f g : FlowchartNode -> FlowchartNode) (p : list nat) :
  forall t n, get p t = Some n -> f n = g n -> modifyAt p f t = modifyAt p g t.
Proof.
  induction p as [|i p IH]; intros [r ti tn cs e v] n Hg E.
  - cbn in *. congruence.
  - cbn [get children] in Hg.
    destruct (nth_error cs i) as [c|] eqn:Hc; [|discriminate].
    cbn [modifyAt children]. f_equal.
    apply modify_nth_ext with (x := c); [exact Hc|]. now apply (IH c n).
Qed.

(** With pairwise distinct ids, [updateNode(node.id, updates)] puts the merge
    of [node] with the updates where [node] was. *)
Lemma updateNode_at (st : Index) (p : list nat) (node : FlowchartNode)
  (updates : Updates) :
  NoDup (ids (flowchart st)) ->
  get p (flowchart st) = Some node ->
  exists n', get p (flowchart (updateNode (id node) updates st)) = Some n'
             /\ content n' = content (spread_updates 0 node updates).
Proof.
  intros ND Hg.
  pose proof (updateNode_content (id node) updates st) as E.
  rewrite (@pathCopy_value_modifyAt (id node) (hitv_update updates) p
             (flowchart st) node ND Hg eq_refl) in E.
  pose proof (get_modifyAt (hitv_update updates) p (flowchart st) Hg) as G.
  destruct (get_of_content_eq _ _ p E G) as (n' & G' & En).
  exists n'. split; [exact G'|]. rewrite En. reflexivity.
Qed.

(** The same for every node that the traversal reaches, whatever ids the
    other nodes have. *)
Lemma updateNode_at_visited (st : Index) (p : list nat) (node : FlowchartNode)
  (updates : Updates) :
  visited (id node) p (flowchart st) = true ->
  get p (flowchart st) = Some node ->
  exists n', get p (flowchart (updateNode (id node) updates st)) = Some n'
             /\ content n' = content (spread_updates 0 node updates).
Proof.
  intros Hv Hg.
  pose proof (updateNode_content (id node) updates st) as E.
  pose proof (@get_pathCopy_value_visited (id node) (hitv_update updates) p
                (flowchart st) node Hg Hv) as G.
  rewrite (proj1 (pathCopy_value_node (id node) (hitv_update updates) node)
             eq_refl) in G.
  destruct (get_of_content_eq _ _ p E G) as (n' & G' & En).
  exists n'. split; [exact G'|]. rewrite En. reflexivity.
Qed.

(** ** Committing and cancelling an edit (claim C4) *)

Lemma trimStart_whitespace (s : JSString) :
  forallb isWhiteSpace s = true -> trimStart s = [].
Proof.
  induction s as [|c s IH]; cbn [forallb trimStart]; [reflexivity|].
  intros H. apply andb_true_iff in H as [Hc Hs]. rewrite Hc. now apply IH.
Qed.

Lemma trim_whitespace (s : JSString) :
  forallb isWhiteSpace s = true -> trim s = [].
Proof.
  intros H. unfold trim. now rewrite (trimStart_whitespace s H).
Qed.

(** C4: for every node that [updateNode] reaches under its own id (no node
    above it carries the same id; other nodes may), whether it is in editing
    state or not, and every text of the edit buffer: committing when the
    trimmed text is not empty sets the node's label to the trimmed text and
    [isEditing] to false; committing when the trimmed text is empty (as it
    is for a text of white space only) keeps the label, puts it back into
    the edit buffer and sets [isEditing] to false; cancelling keeps the
    label, puts it back into the edit buffer and sets [isEditing] to
    false. *)
Theorem C4_commit_and_cancel (st : Index) (p : list nat) (node : FlowchartNode)
  (editValue : JSString) :
  visited (id node) p (flowchart st) = true ->
  get p (flowchart st) = Some node ->
  let commit := handleSaveEdit node editValue st in
  let cancel := handleCancelEdit node editValue st in
  (exists n',
      get p (flowchart (snd commit)) = Some n'
      /\ isEditing n' = false
      /\ (trim editValue <> [] -> name n' = trim editValue)
      /\ (trim editValue = [] -> name n' = name node /\ fst commit = name node))
  /\ (exists n',
         get p (flowchart (snd cancel)) = Some n'
         /\ isEditing n' = false
         /\ name n' = name node)
  /\ fst cancel = name node
  /\ (forallb isWhiteSpace editValue = true -> trim editValue = []).
Proof.
  intros Hv Hg commit cancel. subst commit cancel.
  unfold handleSaveEdit, handleCancelEdit. repeat split.
  - destruct (trim editValue) as [|c s] eqn:Et; cbn [truthy snd fst].
    + destruct (updateNode_at_visited st p
                  (mkUpdates None None None (Some false) None) Hv Hg)
        as (n' & G & En).
      exists n'. destruct n', node. cbn in En. injection En as -> -> _ -> ->.
      repeat split; [exact G|congruence].
    + destruct (updateNode_at_visited st p
                  (mkUpdates None (Some (c :: s)) None (Some false) None)
                  Hv Hg) as (n' & G & En).
      exists n'. destruct n', node. cbn in En. injection En as -> -> _ -> ->.
      repeat split; [exact G|discriminate|discriminate].
  - destruct (updateNode_at_visited st p
                (mkUpdates None None None (Some false) None) Hv Hg)
      as (n' & G & En).
    exists n'. destruct n', node. cbn in En. injection En as -> -> _ -> ->.
    repeat split. exact G.
  - apply trim_whitespace.
Qed.

(** C4, witness: two children with the same id, both being edited; the edit
    buffer ["  "] committed on the second. *)
Lemma C4_commit_and_cancel_witness :
  exists n',
    get [1] (flowchart
               (snd (handleSaveEdit
                       (nth 1 (children (flowchart twins_editing))
                          (flowchart twins_editing))
                       (str "  ") twins_editing)))
    = Some n'
    /\ isEditing n' = false
    /\ name n' = str "Button 2".
Proof.
  destruct (@C4_commit_and_cancel twins_editing [1]
              (nth 1 (children (flowchart twins_editing))
                 (flowchart twins_editing))
              (str "  ") eq_refl eq_refl) as ((n' & G & E & _ & K) & _).
  exists n'. split; [exact G|]. split; [exact E|].
  exact (proj1 (K eq_refl)).
Defined.

(** ** Adding a child (claims C2 and C3) *)

Lemma makeChildId_not_root (e : Env) : makeChildId e <> str "root".
Proof.
  intros H. apply (f_equal (hd 0%N)) in H. vm_compute in H. discriminate.
Qed.

(** C3, counterexample: the id is made of [Date.now()] and nine digits of
    [Math.random()] and is compared with nothing; a second call that reads
    the same clock value and the same digits appends a leaf whose id the
    first child already carries. *)
Lemma C3_appended_id_not_fresh :
  ~ appended_id_is_fresh (addChild (str "root") env1 initial) (str "root") env1.
Proof.
  intros H. apply (H [] _ _ eq_refl eq_refl eq_refl).
  vm_compute. right. left. reflexivity.
Qed.

(** C3, amended: in a tree with pairwise distinct ids that has a node of id
    [parentId] with n children, [addChild(parentId)] returns the same tree
    with exactly one node more, put at the end of that parent's children: a
    leaf labelled "Button n+1", not editing, children visible, whose id is
    the generated [node-<Date.now()>-<digits of Math.random()>] (new to the
    tree whenever that text is carried by no node yet).  From the initial
    tree, two calls on ["root"] leave the root with exactly the two children
    "Button 1" and "Button 2", whatever ids were generated. *)
Theorem C3_addChild_appends_leaf :
  (forall st p parent parentId e,
      NoDup (ids (flowchart st)) ->
      get p (flowchart st) = Some parent ->
      id parent = parentId ->
      content (flowchart (addChild parentId e st))
      = content (modifyAt p (append_child (new_leaf e parent)) (flowchart st)))
  /\ (forall e1 e2,
         map content
           (children (flowchart (addChild (str "root") e2
                                   (addChild (str "root") e1 initial))))
         = [mkNode 0 (makeChildId e1) (str "Button 1") [] false true;
            mkNode 0 (makeChildId e2) (str "Button 2") [] false true]).
Proof.
  split.
  - intros st p parent parentId e ND Hg Hp.
    rewrite addChild_content.
    rewrite (@pathCopy_value_modifyAt parentId (hitv_addChild (makeChildId e)) p
               (flowchart st) parent ND Hg Hp).
    f_equal. now apply modifyAt_ext with (n := parent).
  - intros e1 e2. unfold addChild, initial. cbn [flowchart next_ref].
    cbn [addChildRecursive id]. rewrite strict_eq_refl. unfold_alloc.
    cbn [flowchart next_ref truncateText addChildRecursive id spread_children].
    rewrite strict_eq_refl. reflexivity.
Qed.

(** C3, witness: a third child below the root of the two-children tree. *)
Lemma C3_addChild_appends_leaf_witness :
  content (flowchart (addChild (str "root") env1 two_children))
  = content (modifyAt [] (append_child (new_leaf env1 (flowchart two_children)))
               (flowchart two_children)).
Proof.
  assert (ND : NoDup (ids (flowchart two_children))).
  { vm_compute. repeat constructor; cbn; intuition discriminate. }
  exact (proj1 C3_addChild_appends_leaf two_children [] (flowchart two_children)
           (str "root") env1 ND eq_refl eq_refl).
Defined.

Lemma flat_map_ids_modify_nth (g : FlowchartNode -> FlowchartNode)
  (k : JSString) (cs : list FlowchartNode) :
  forall i c,
    nth_error cs i = Some c ->
    Permutation (ids (g c)) (k :: ids c) ->
    Permutation (flat_map ids (modify_nth i g cs)) (k :: flat_map ids cs).
Proof.
  induction cs as [|a cs IH]; intros [|i] c Hc Hp; try discriminate.
  - injection Hc as ->. cbn [modify_nth flat_map].
    now apply (Permutation_app_tail (flat_map ids cs)) in Hp.
  - cbn [modify_nth flat_map nth_error] in *.
    etransitivity; [apply Permutation_app_head, (IH i c Hc Hp)|].
    symmetry. apply Permutation_middle.
Qed.

Lemma ids_modifyAt_append (childId : JSString) (p : list nat) :
  forall t n,
    get p t = Some n ->
    Permutation (ids (modifyAt p (hitv_addChild childId) t)) (childId :: ids t).
Proof.
  induction p as [|i p IH]; intros [r ti tn cs e v] n Hg.
  - cbn [modifyAt hitv_addChild spread_children ids id children obj].
    rewrite flat_map_app. cbn [flat_map ids id children newChild app].
    symmetry.
    apply (Permutation_cons_append (ti :: flat_map ids cs) childId).
  - cbn [get children] in Hg.
    destruct (nth_error cs i) as [c|] eqn:Hc; [|discriminate].
    cbn [modifyAt spread_children ids id children obj].
    etransitivity; [|apply perm_swap]. apply perm_skip.
    apply flat_map_ids_modify_nth with (c := c); [exact Hc|].
    now apply (IH c n).
Qed.

Lemma addChild_ids (parentId : JSString) (e : Env) (st : Index) :
  NoDup (ids (flowchart st)) ->
  ids (flowchart (addChild parentId e st)) = ids (flowchart st)
  \/ Permutation (ids (flowchart (addChild parentId e st)))
       (makeChildId e :: ids (flowchart st)).
Proof.
  intros ND. rewrite <- (content_ids (flowchart (addChild parentId e st))).
  rewrite addChild_content, content_ids.
  destruct (in_dec JSString_eq_dec parentId (ids (flowchart st))) as [Hin|Hout].
  - right. destruct (In_ids_get _ _ Hin) as (p & n & Hg & Hn).
    rewrite (@pathCopy_value_modifyAt parentId (hitv_addChild (makeChildId e)) p
               (flowchart st) n ND Hg Hn).
    now apply ids_modifyAt_append with (n := n).
  - left. now rewrite pathCopy_value_absent.
Qed.

Lemma addChildren_NoDup (calls : list (JSString * Env)) :
  forall st,
    NoDup (ids (flowchart st)) ->
    NoDup (generated_ids calls) ->
    (forall k, In k (generated_ids calls) -> ~ In k (ids (flowchart st))) ->
    NoDup (ids (flowchart (addChildren calls st))).
Proof.
  induction calls as [|[parentId e] calls IH]; intros st ND NG Hfresh.
  - exact ND.
  - cbn [addChildren]. cbn [generated_ids map snd] in NG, Hfresh.
    fold (generated_ids calls) in NG, Hfresh.
    apply NoDup_cons_iff in NG as [He NG].
    assert (Hnew : ~ In (makeChildId e) (ids (flowchart st)))
      by (apply Hfresh; now left).
    destruct (addChild_ids parentId e st ND) as [E|P].
    + apply IH; [now rewrite E|exact NG|].
      intros k Hk. rewrite E. apply Hfresh. now right.
    + apply IH; [|exact NG|].
      * apply (Permutation_NoDup (Permutation_sym P)). now constructor.
      * intros k Hk F. apply (Permutation_in _ P) in F. destruct F as [<-|F].
        -- contradiction.
        -- apply (Hfresh k); [now right|exact F].
Qed.

(** C2, counterexample: two calls that read the same clock value and the same
    random digits give both children the id [node-1700000000000-4fzyo82mv]. *)
Lemma C2_same_clock_and_digits_collide :
  ~ ids_distinct_after [(str "root", env1); (str "root", env1)].
Proof.
  unfold ids_distinct_after. intros H. vm_compute in H.
  apply NoDup_cons_iff in H as [_ H]. apply NoDup_cons_iff in H as [H _].
  apply H. now left.
Qed.

(** C2, amended: for every run of [addChild] calls from the initial tree in
    which the generated ids [node-<Date.now()>-<digits of Math.random()>] are
    pairwise distinct, all node ids of the resulting tree are pairwise
    distinct.  (The code compares a generated id with nothing.) *)
Theorem C2_ids_distinct_when_generated_distinct
  (calls : list (JSString * Env)) :
  NoDup (generated_ids calls) ->
  NoDup (ids (flowchart (addChildren calls initial))).
Proof.
  intros NG. apply addChildren_NoDup; [|exact NG|].
  - cbn. constructor; [intros []|constructor].
  - intros k Hk [F|[]]. apply in_map_iff in Hk as ([q e] & <- & _).
    cbn [snd] in F. symmetry in F. now apply makeChildId_not_root in F.
Qed.

(** C2, witness: the two calls that build the two-children tree. *)
Lemma C2_ids_distinct_when_generated_distinct_witness :
  NoDup (ids (flowchart two_children)).
Proof.
  apply (@C2_ids_distinct_when_generated_distinct
           [(str "root", env1); (str "root", env2)]).
  vm_compute. repeat constructor; cbn; intuition discriminate.
Defined.

(** ** Layout (claims C7 to C10) *)

Lemma substring_0_20 (s : JSString) :
  20 < length s -> substring s 0 20 = firstn 20 s.
Proof.
  intros H. unfold substring.
  change (Nat.min 0 (length s)) with 0.
  rewrite (Nat.min_l 20 (length s)) by lia. reflexivity.
Qed.

(** C7: the display text is the label itself when the truncate flag is off or
    the label has at most 20 code units, and otherwise its first 20 code
    units followed by ["..."]; so a label of exactly 20 is never cut, and one
    of 21 with the flag on is shown as its first 20 and the three dots.  The
    button of a node that is not being edited shows this text. *)
Theorem C7_display_text (truncate : bool) (s : JSString) :
  (truncate = false \/ length s <= 20 -> getDisplayText truncate s = s)
  /\ (truncate = true -> 20 < length s ->
      getDisplayText truncate s = firstn 20 s ++ str "...")
  /\ (length s = 20 -> getDisplayText truncate s = s)
  /\ (length s = 21 ->
      getDisplayText true s = firstn 20 s ++ str "..."
      /\ length (getDisplayText true s) = 23)
  /\ (forall node editValues,
         isEditing node = false -> name node = s ->
         exists w title,
           mainBox truncate editValues node
           = ButtonBox (getDisplayText truncate s) w title).
Proof.
  unfold getDisplayText. repeat split.
  - intros [->|H]; [reflexivity|].
    apply Nat.leb_le in H. rewrite H. now rewrite orb_true_r.
  - intros -> H. apply Nat.leb_gt in H. rewrite H. cbn [negb orb].
    now rewrite substring_0_20 by (now apply Nat.leb_gt).
  - intros H. rewrite H. cbn. now rewrite orb_true_r.
  - rewrite H. cbn [negb orb Nat.leb]. rewrite substring_0_20 by lia.
    reflexivity.
  - rewrite H. cbn [negb orb Nat.leb]. rewrite substring_0_20 by lia.
    rewrite length_app, length_firstn, H. reflexivity.
  - intros node editValues He Hn. unfold mainBox, displayText. rewrite He, Hn.
    eexists. eexists. reflexivity.
Qed.

(** C7, witness: a label of 21 code units, flag on. *)
Lemma C7_display_text_witness :
  getDisplayText true (str "ABCDEFGHIJKLMNOPQRSTU")
  = str "ABCDEFGHIJKLMNOPQRST...".
Proof.
  exact (proj1 (proj2 (@C7_display_text true (str "ABCDEFGHIJKLMNOPQRSTU")))
           eq_refl ltac:(vm_compute; lia)).
Defined.

(** C8: the box width is [Math.max(8, t.length * 0.7 + 4)], computed in
    binary64 as the source does, where [t] is the edit buffer while the node
    is being edited and the display text of the label otherwise; it is the
    width of the rendered input or button. *)
Theorem C8_box_width (truncate : bool) (node : FlowchartNode)
  (editValue : JSString) :
  let t := if isEditing node then editValue else displayText truncate node in
  buttonWidth truncate node editValue
  = Math_max 8 (number_of_length (length t) * 0.7 + 4)%float
  /\ (forall editValues depth,
         editValues (id node) = editValue ->
         box_width (main_box_of (render truncate editValues node depth))
         = buttonWidth truncate node editValue).
Proof.
  split.
  - unfold buttonWidth, getButtonWidth, displayText, getDisplayText.
    destruct (isEditing node), truncate; reflexivity.
  - intros editValues depth <-. destruct node as [r i n cs e v].
    cbn [render main_box_of]. unfold mainBox. cbn [isEditing id].
    destruct e; reflexivity.
Qed.

(** C8, witness: the width of the rendered box of a node being edited. *)
Lemma C8_box_width_witness :
  box_width
    (main_box_of
       (render true (fun _ => str "abcdefghijkl")
          (mkNode 0 (str "root") (str "Start") [] true true) 0))
  = 12.399999999999999%float.
Proof.
  rewrite (proj2 (@C8_box_width true
                    (mkNode 0 (str "root") (str "Start") [] true true)
                    (str "abcdefghijkl")) (fun _ => str "abcdefghijkl") 0 eq_refl).
  vm_compute. reflexivity.
Defined.

Lemma tick_lefts_nth (cs : list FlowchartNode) (i : nat) :
  i < length cs -> nth_error (tick_lefts cs) i = Some (Z.of_nat i * 14)%Z.
Proof.
  intros H. unfold tick_lefts. rewrite nth_error_map, nth_error_seq.
  apply Nat.ltb_lt in H. now rewrite H.
Qed.

Lemma tick_lefts_length (cs : list FlowchartNode) :
  length (tick_lefts cs) = length cs.
Proof. unfold tick_lefts. now rewrite length_map, length_seq. Qed.

(** C9: a child row is rendered exactly when the node has at least one child
    and [childrenVisible] is true; it then holds one rendered child per
    child.  With one child there is no horizontal connector; with n >= 2
    children the connector is (n - 1) * 14 + 6 wide and has n vertical lines,
    the i-th (from 0, in the order of the children) at i * 14. *)
Theorem C9_child_row (truncate : bool) (editValues : JSString -> JSString)
  (node : FlowchartNode) (depth : nat) :
  let n := length (children node) in
  let v := render truncate editValues node depth in
  (child_row_of v <> None <-> 1 <= n /\ childrenVisible node = true)
  /\ (forall r,
         child_row_of v = Some r ->
         length (row_of r) = n
         /\ (n = 1 -> horizontal_of r = None)
         /\ (2 <= n ->
             exists c,
               horizontal_of r = Some c
               /\ spine_width c = ((Z.of_nat n - 1) * 14 + 6)%Z
               /\ length (tick_left c) = n
               /\ forall i, i < n ->
                            nth_error (tick_left c) i
                            = Some (Z.of_nat i * 14)%Z)).
Proof.
  destruct node as [r i nm cs e v]. cbn [children childrenVisible].
  cbn [render child_row_of]. unfold hasChildren. cbn [children childrenVisible].
  split.
  - destruct (Nat.ltb_spec 0 (length cs)) as [H|H], v; cbn [andb]; split.
    + intros _. split; [lia|reflexivity].
    + discriminate.
    + intros F. now contradiction F.
    + intros [_ F]. discriminate.
    + intros F. now contradiction F.
    + intros [F _]. lia.
    + intros F. now contradiction F.
    + intros [F _]. lia.
  - intros row Hrow.
    destruct (0 <? length cs); [|discriminate].
    destruct v; [|discriminate]. cbn [andb] in Hrow. injection Hrow as <-.
    cbn [row_of horizontal_of]. unfold connector. cbn [children].
    split; [apply length_map|]. split.
    + intros ->. reflexivity.
    + intros H. apply Nat.ltb_lt in H. rewrite H.
      eexists. split; [reflexivity|]. cbn [spine_width tick_left].
      split; [reflexivity|]. split; [apply tick_lefts_length|].
      intros k Hk. now apply tick_lefts_nth.
Qed.

(** C9, witness: the root with two children has a connector of 20 rem with
    lines at 0 and 14. *)
Lemma C9_child_row_witness :
  exists row c,
    child_row_of (render false (fun _ => []) (flowchart two_children) 0)
    = Some row
    /\ horizontal_of row = Some c
    /\ spine_width c = 20%Z
    /\ tick_left c = [0; 14]%Z.
Proof.
  pose proof (proj2 (@C9_child_row false (fun _ => []) (flowchart two_children) 0)
                _ eq_refl) as (_ & _ & H).
  destruct (H ltac:(vm_compute; lia)) as (c & Hc & Hw & _).
  eexists. exists c. split; [reflexivity|]. split; [exact Hc|].
  vm_compute in Hc. injection Hc as <-. split; reflexivity.
Defined.

Lemma getButtonWidth_length (s : JSString) :
  getButtonWidth s = width_of_length (length s).
Proof. reflexivity. Qed.

Lemma width_of_length_bound (n : nat) :
  n <= 23 ->
  PrimFloat.leb (width_of_length n) (Math_max 8 (23 * 0.7 + 4))%float = true
  /\ PrimFloat.leb (width_of_length n) 20.1%float = true.
Proof.
  intros H.
  do 24 (destruct n as [|n]; [split; vm_compute; reflexivity|]).
  lia.
Qed.

Lemma width_of_length_above (n : nat) :
  24 <= n <= 1000 -> PrimFloat.ltb 20.1%float (width_of_length n) = true.
Proof.
  intros H.
  assert (A : forallb (fun k => PrimFloat.ltb 20.1%float (width_of_length k))
                (seq 24 977) = true) by (vm_compute; reflexivity).
  rewrite forallb_forall in A. apply A, in_seq. lia.
Qed.

Lemma getDisplayText_length (s : JSString) :
  length (getDisplayText true s) <= 23.
Proof.
  unfold getDisplayText. cbn [negb orb].
  destruct (Nat.leb_spec (length s) 20) as [H|H]; [lia|].
  rewrite substring_0_20 by exact H.
  rewrite length_app, length_firstn. cbn [str length map list_ascii_of_string].
  lia.
Qed.

(** C10: with the truncate flag on and the node not being edited, the display
    text has at most 23 code units (20 of the label and the three dots), so
    the box width is at most [Math.max(8, 23 * 0.7 + 4)], which is within
    20.1.  With the flag off, and while editing, the bound does not hold:
    the width follows the length of the label, or of the edit buffer, and is
    above 20.1 for every text of 24 to 1000 code units. *)
Theorem C10_truncated_width_bounded :
  (forall node editValue,
      isEditing node = false ->
      length (displayText true node) <= 23
      /\ PrimFloat.leb (buttonWidth true node editValue)
           (Math_max 8 (23 * 0.7 + 4))%float = true
      /\ PrimFloat.leb (buttonWidth true node editValue) 20.1%float = true)
  /\ PrimFloat.leb (Math_max 8 (23 * 0.7 + 4)) 20.1%float = true
  /\ (forall node editValue,
         isEditing node = false ->
         24 <= length (name node) <= 1000 ->
         PrimFloat.ltb 20.1%float (buttonWidth false node editValue) = true)
  /\ (forall truncate node editValue,
         isEditing node = true ->
         24 <= length editValue <= 1000 ->
         PrimFloat.ltb 20.1%float (buttonWidth truncate node editValue) = true).
Proof.
  split; [|split; [|split]].
  - intros node editValue He. unfold displayText.
    split; [apply getDisplayText_length|].
    unfold buttonWidth. rewrite He. rewrite getButtonWidth_length.
    apply width_of_length_bound, getDisplayText_length.
  - vm_compute. reflexivity.
  - intros node editValue He H. unfold buttonWidth. rewrite He.
    rewrite getButtonWidth_length. now apply width_of_length_above.
  - intros truncate node editValue He H. unfold buttonWidth. rewrite He.
    rewrite getButtonWidth_length. now apply width_of_length_above.
Qed.

(** C10, witness: a label of 30 code units, flag on, not editing. *)
Lemma C10_truncated_width_bounded_witness :
  PrimFloat.leb
    (buttonWidth true
       (mkNode 0 (str "root") (str "ABCDEFGHIJKLMNOPQRSTUVWXYZABCD") [] false true)
       [])
    20.1%float = true.
Proof.
  exact (proj2 (proj2 (proj1 C10_truncated_width_bounded
                         (mkNode 0 (str "root")
                            (str "ABCDEFGHIJKLMNOPQRSTUVWXYZABCD") [] false true)
                         [] eq_refl))).
Defined.

(** * Further properties of the page *)

(** ** The traversals as functions on values *)

Section ContentPathCopyValue.

Variable key : JSString.
Variables hitv hitv' : FlowchartNode -> FlowchartNode.
Hypothesis hitv_content : forall n, content (hitv n) = hitv' (content n).

Lemma content_pathCopy_value (t : FlowchartNode) :
  content (pathCopy_value key hitv t) = pathCopy_value key hitv' (content t).
Proof.
  induction t as [r ti tn cs e v IH] using FlowchartNode_tree_ind.
  cbn [pathCopy_value content id children].
  destruct (strict_eq ti key) eqn:E.
  - rewrite hitv_content. reflexivity.
  - assert (M : map content (map (pathCopy_value key hitv) cs)
                = map (pathCopy_value key hitv') (map content cs)).
    { rewrite !map_map.
      induction IH as [|c l Hc _ IHl]; cbn [map]; [reflexivity|].
      now rewrite Hc, IHl. }
    cbn. now rewrite M.
Qed.

End ContentPathCopyValue.

Lemma hitv_update_content (u : Updates) (n : FlowchartNode) :
  content (hitv_update u n) = hitv_update (content_updates u) (content n).
Proof. destruct n, u as [ui un [cs|] ue uv]; reflexivity. Qed.

Lemma hitv_addChild_content (childId : JSString) (n : FlowchartNode) :
  content (hitv_addChild childId n) = hitv_addChild childId (content n).
Proof.
  destruct n as [r i nm cs e v].
  unfold hitv_addChild, newChild, spread_children.
  cbn [content children id name isEditing childrenVisible obj].
  rewrite map_app, length_map. reflexivity.
Qed.

Lemma updateNode_value (nodeId : JSString) (u : Updates) (st : Index) :
  content (flowchart (updateNode nodeId u st))
  = pathCopy_value nodeId (hitv_update (content_updates u))
      (content (flowchart st)).
Proof.
  rewrite updateNode_content.
  apply content_pathCopy_value. apply hitv_update_content.
Qed.

Lemma addChild_value (parentId : JSString) (e : Env) (st : Index) :
  content (flowchart (addChild parentId e st))
  = pathCopy_value parentId (hitv_addChild (makeChildId e))
      (content (flowchart st)).
Proof.
  rewrite addChild_content.
  apply content_pathCopy_value. apply hitv_addChild_content.
Qed.

Lemma content_content (t : FlowchartNode) : content (content t) = content t.
Proof.
  induction t as [r ti tn cs e v IH] using FlowchartNode_tree_ind.
  cbn [content id name children isEditing childrenVisible]. f_equal.
  rewrite map_map.
  induction IH as [|c l Hc _ IHl]; cbn [map]; [reflexivity|].
  now rewrite Hc, IHl.
Qed.

Lemma merge_content_updates (u1 u2 : Updates) :
  content_updates (merge_updates u1 u2)
  = merge_updates (content_updates u1) (content_updates u2).
Proof.
  destruct u1 as [a b [c|] d e], u2 as [a' b' [c'|] d' e']; reflexivity.
Qed.

Lemma hitv_update_twice (u1 u2 : Updates) (n : FlowchartNode) :
  hitv_update u2 (hitv_update u1 n) = hitv_update (merge_updates u1 u2) n.
Proof.
  destruct n, u1 as [a b c d e], u2 as [[a'|] [b'|] [c'|] [d'|] [e'|]];
    reflexivity.
Qed.

(** Two passes with the same key are one pass with the merged updates,
    provided the first pass leaves the ids alone. *)
Lemma update_value_twice (k : JSString) (u1 u2 : Updates) (t : FlowchartNode) :
  u_id u1 = None ->
  pathCopy_value k (hitv_update u2) (pathCopy_value k (hitv_update u1) t)
  = pathCopy_value k (hitv_update (merge_updates u1 u2)) t.
Proof.
  intros Hu.
  induction t as [r ti tn cs e v IH] using FlowchartNode_tree_ind.
  cbn [pathCopy_value id children].
  destruct (strict_eq ti k) eqn:E.
  - rewrite <- hitv_update_twice.
    destruct (hitv_update u1 (mkNode r ti tn cs e v)) as [r' i' n' cs' e' v'] eqn:H.
    assert (Hi : i' = ti).
    { apply (f_equal id) in H. cbn in H. rewrite Hu in H. cbn in H. congruence. }
    cbn [pathCopy_value id]. now rewrite Hi, E.
  - assert (M : map (pathCopy_value k (hitv_update u2))
                  (map (pathCopy_value k (hitv_update u1)) cs)
                = map (pathCopy_value k (hitv_update (merge_updates u1 u2))) cs).
    { rewrite map_map.
      induction IH as [|c l Hc _ IHl]; cbn [map]; [reflexivity|].
      now rewrite Hc, IHl. }
    cbn [pathCopy_value spread_children id children obj]. rewrite E.
    cbn. now rewrite M.
Qed.

Lemma updateNode_twice_merges_value (st : Index) (k : JSString)
  (u1 u2 : Updates) :
  u_id u1 = None ->
  content (flowchart (updateNode k u2 (updateNode k u1 st)))
  = pathCopy_value k (hitv_update (content_updates (merge_updates u1 u2)))
      (content (flowchart st)).
Proof.
  intros Hu. rewrite !updateNode_value, merge_content_updates.
  now apply update_value_twice.
Qed.

(** X1: two calls of [updateNode] on the same id are one call with the merged
    updates [{ ...u1, ...u2 }], if the first updates carry no [id]. *)
Theorem updateNode_twice_merges (st : Index) (k : JSString) (u1 u2 : Updates) :
  u_id u1 = None ->
  content (flowchart (updateNode k u2 (updateNode k u1 st)))
  = content (flowchart (updateNode k (merge_updates u1 u2) st)).
Proof.
  intros Hu. rewrite !updateNode_value, merge_content_updates.
  now apply update_value_twice.
Qed.

Lemma updateNode_twice_merges_witness :
  content (flowchart (updateNode (makeChildId env1) start_editing
                        (updateNode (makeChildId env1)
                           (mkUpdates None (Some (str "First")) None None None)
                           two_children)))
  = content (flowchart (updateNode (makeChildId env1)
                          (mkUpdates None (Some (str "First")) None (Some true)
                             None)
                          two_children)).
Proof.
  exact (@updateNode_twice_merges two_children (makeChildId env1)
           (mkUpdates None (Some (str "First")) None None None) start_editing
           eq_refl).
Defined.

(** ** What the handlers of a node never touch *)

Lemma update_value_ids (k : JSString) (u : Updates) (t : FlowchartNode) :
  u_id u = None -> u_children u = None ->
  ids (pathCopy_value k (hitv_update u) t) = ids t.
Proof.
  intros Hi Hc.
  induction t as [r ti tn cs e v IH] using FlowchartNode_tree_ind.
  cbn [pathCopy_value id children].
  destruct (strict_eq ti k).
  - cbn. now rewrite Hi, Hc.
  - cbn [ids spread_children id children]. f_equal.
    induction IH as [|c l H _ IHl]; cbn [map flat_map]; [reflexivity|].
    now rewrite H, IHl.
Qed.

Lemma updateNode_ids_shape (k : JSString) (u : Updates) (st : Index) :
  u_id u = None -> u_children u = None ->
  ids (flowchart (updateNode k u st)) = ids (flowchart st)
  /\ shape (flowchart (updateNode k u st)) = shape (flowchart st).
Proof.
  intros Hi Hc. split.
  - rewrite <- (content_ids (flowchart (updateNode k u st))).
    rewrite updateNode_content, content_ids. now apply update_value_ids.
  - rewrite <- (content_shape (flowchart (updateNode k u st))).
    rewrite updateNode_content, content_shape.
    apply pathCopy_value_shape. now apply hitv_update_children.
Qed.

(** X2: none of the handlers of a node (double click, save, cancel, key
    press, eye) changes an id, the order of the ids, or an edge of the tree,
    whatever the node, the edit buffer and the key. *)
Theorem handlers_keep_ids_and_shape (node : FlowchartNode)
  (editValue key : JSString) (st : Index) :
  let same st' :=
    ids (flowchart st') = ids (flowchart st)
    /\ shape (flowchart st') = shape (flowchart st) in
  same (snd (handleDoubleClick node editValue st))
  /\ same (snd (handleSaveEdit node editValue st))
  /\ same (snd (handleCancelEdit node editValue st))
  /\ same (snd (handleKeyPress node key editValue st))
  /\ same (snd (toggleChildrenVisibility node editValue st)).
Proof.
  intros same. subst same. cbv beta.
  assert (S : ids (flowchart (snd (handleSaveEdit node editValue st)))
              = ids (flowchart st)
              /\ shape (flowchart (snd (handleSaveEdit node editValue st)))
                 = shape (flowchart st)).
  { unfold handleSaveEdit. destruct (truthy (trim editValue)); cbn [snd];
      now apply updateNode_ids_shape. }
  assert (C : ids (flowchart (snd (handleCancelEdit node editValue st)))
              = ids (flowchart st)
              /\ shape (flowchart (snd (handleCancelEdit node editValue st)))
                 = shape (flowchart st)).
  { unfold handleCancelEdit. cbn [snd]. now apply updateNode_ids_shape. }
  split; [|split; [exact S|split; [exact C|split]]].
  - unfold handleDoubleClick. cbn [snd]. now apply updateNode_ids_shape.
  - unfold handleKeyPress.
    destruct (strict_eq key (str "Enter")); [exact S|].
    destruct (strict_eq key (str "Escape")); [exact C|].
    cbn [snd]. now split.
  - unfold toggleChildrenVisibility. cbn [snd]. now apply updateNode_ids_shape.
Qed.

(** X3: saving the same text twice gives the tree that saving it once gives,
    whether the trimmed text is empty or not. *)
Theorem handleSaveEdit_twice (node node' : FlowchartNode) (editValue : JSString)
  (st : Index) :
  id node' = id node ->
  let once := snd (handleSaveEdit node editValue st) in
  content (flowchart (snd (handleSaveEdit node' editValue once)))
  = content (flowchart once).
Proof.
  intros Hid once. subst once. unfold handleSaveEdit. rewrite Hid.
  destruct (truthy (trim editValue)); cbn [snd];
    rewrite updateNode_twice_merges_value by reflexivity;
    now rewrite updateNode_value.
Qed.

(** ** Round trips of the handlers *)

Lemma modify_nth_fix {A} (f : A -> A) (l : list A) (i : nat) (x : A) :
  nth_error l i = Some x -> f x = x -> modify_nth i f l = l.
Proof.
  revert i. induction l as [|a l IH]; intros [|i] H E; try discriminate.
  - injection H as ->. cbn. now rewrite E.
  - cbn [modify_nth nth_error] in *. f_equal. now apply IH.
Qed.

Lemma modifyAt_fix (f : FlowchartNode -> FlowchartNode) (p : list nat) :
  forall t n, get p t = Some n -> f n = n -> modifyAt p f t = t.
Proof.
  induction p as [|i p IH]; intros [r ti tn cs e v] n Hg E.
  - cbn in *. congruence.
  - cbn [get children] in Hg.
    destruct (nth_error cs i) as [c|] eqn:Hc; [|discriminate].
    cbn [modifyAt children obj]. unfold spread_children.
    cbn [id name isEditing childrenVisible]. f_equal.
    apply modify_nth_fix with (x := c); [exact Hc|]. now apply (IH c n).
Qed.

(** With pairwise distinct ids, a pass that leaves the one node of that id as
    it is leaves the tree as it is. *)
Lemma pathCopy_value_fix (k : JSString)
  (hitv : FlowchartNode -> FlowchartNode) (p : list nat)
  (t n : FlowchartNode) :
  NoDup (ids t) -> get p t = Some n -> id n = k -> hitv n = n ->
  pathCopy_value k hitv t = t.
Proof.
  intros ND Hg Hk Hn.
  rewrite (@pathCopy_value_modifyAt k hitv p t n ND Hg Hk).
  now apply modifyAt_fix with (n := n).
Qed.

Lemma updates_undone (st : Index) (p : list nat) (node : FlowchartNode)
  (u1 u2 : Updates) :
  NoDup (ids (flowchart st)) ->
  get p (flowchart st) = Some node ->
  u_id u1 = None ->
  hitv_update (content_updates (merge_updates u1 u2)) (content node)
  = content node ->
  content (flowchart (updateNode (id node) u2 (updateNode (id node) u1 st)))
  = content (flowchart st).
Proof.
  intros ND Hg Hu Hfix.
  rewrite updateNode_twice_merges_value by exact Hu.
  apply pathCopy_value_fix with (p := p) (n := content node).
  - now rewrite content_ids.
  - rewrite get_content, Hg. reflexivity.
  - now destruct node.
  - exact Hfix.
Qed.

Lemma updateNode_at_unique (st : Index) (p : list nat)
  (node node' : FlowchartNode) (u : Updates) :
  NoDup (ids (flowchart st)) ->
  get p (flowchart st) = Some node ->
  get p (flowchart (updateNode (id node) u st)) = Some node' ->
  content node' = content (spread_updates 0 node u).
Proof.
  intros ND Hg Hg'.
  destruct (updateNode_at st p u ND Hg) as (n' & G & E). congruence.
Qed.

(** X4: in a tree with pairwise distinct ids, a click on the eye of a node
    flips its [childrenVisible] and keeps its children; a second click gives
    back the tree as it was. *)
Theorem toggleChildrenVisibility_twice (st : Index) (p : list nat)
  (node node' : FlowchartNode) (editValue editValue' : JSString) :
  NoDup (ids (flowchart st)) ->
  get p (flowchart st) = Some node ->
  let st1 := snd (toggleChildrenVisibility node editValue st) in
  get p (flowchart st1) = Some node' ->
  childrenVisible node' = negb (childrenVisible node)
  /\ map content (children node') = map content (children node)
  /\ content (flowchart (snd (toggleChildrenVisibility node' editValue' st1)))
     = content (flowchart st).
Proof.
  intros ND Hg st1 Hg'. subst st1.
  unfold toggleChildrenVisibility in *. cbn [snd] in *.
  pose proof (updateNode_at_unique st p _ ND Hg Hg') as E.
  destruct node as [r i nm cs e v], node' as [r' i' nm' cs' e' v'].
  cbn in E. injection E as Ei En Ecs Ee Ev. subst i' nm' e' v'.
  cbn [childrenVisible children id].
  split; [reflexivity|]. split; [exact Ecs|].
  apply (updates_undone st p (node := mkNode r i nm cs e v)); try assumption;
    try reflexivity.
  cbn. now rewrite negb_involutive.
Qed.

(** X5: in a tree with pairwise distinct ids, a double click on a node that is
    not being edited puts its label into the edit buffer and sets
    [isEditing]; cancelling then, or saving the buffer untouched when the
    label is not empty and has no white space at its ends, gives back the
    tree as it was. *)
Theorem handleDoubleClick_then_leave (st : Index) (p : list nat)
  (node node' : FlowchartNode) (editValue editValue' : JSString) :
  NoDup (ids (flowchart st)) ->
  get p (flowchart st) = Some node ->
  isEditing node = false ->
  let clicked := handleDoubleClick node editValue st in
  get p (flowchart (snd clicked)) = Some node' ->
  fst clicked = name node
  /\ isEditing node' = true
  /\ content (flowchart (snd (handleCancelEdit node' editValue' (snd clicked))))
     = content (flowchart st)
  /\ (well_trimmed (name node) ->
      content (flowchart (snd (handleSaveEdit node' (fst clicked) (snd clicked))))
      = content (flowchart st)).
Proof.
  intros ND Hg He clicked Hg'. subst clicked.
  unfold handleDoubleClick in *. cbn [fst snd] in *.
  pose proof (updateNode_at_unique st p _ ND Hg Hg') as E.
  destruct node as [r i nm cs e v], node' as [r' i' nm' cs' e' v'].
  cbn in E. injection E as Ei En Ecs Ee Ev. subst i' nm' e' v'.
  cbn [isEditing id name] in *. subst e.
  split; [reflexivity|]. split; [reflexivity|]. split.
  - unfold handleCancelEdit. cbn [snd id].
    apply (updates_undone st p (node := mkNode r i nm cs false v));
      try assumption; reflexivity.
  - intros [Hne Ht]. unfold handleSaveEdit. cbn [name id]. rewrite Ht.
    destruct nm as [|c nm]; [contradiction|]. cbn [truthy snd].
    apply (updates_undone st p (node := mkNode r i (c :: nm) cs false v));
      try assumption; reflexivity.
Qed.

(** ** What [addChild] keeps *)

Lemma addChild_value_get (key childId : JSString) (p : list nat) :
  forall t n,
    get p t = Some n ->
    exists n',
      get p (pathCopy_value key (hitv_addChild childId) t) = Some n'
      /\ fields n' = fields n
      /\ (length (children n') = length (children n)
          \/ (id n = key /\ length (children n') = S (length (children n)))).
Proof.
  induction p as [|i p IH]; intros [r ti tn cs e v] n Hg.
  - cbn [get] in Hg. injection Hg as <-. cbn [pathCopy_value id children get].
    destruct (strict_eq ti key) eqn:E; eexists; split; try reflexivity; split;
      try reflexivity.
    + right. split; [now apply strict_eq_true|].
      cbn. rewrite length_app. cbn. lia.
    + left. cbn. apply length_map.
  - cbn [get children] in Hg.
    destruct (nth_error cs i) as [c|] eqn:Hc; [|discriminate].
    cbn [pathCopy_value id children]. destruct (strict_eq ti key).
    + exists n. cbn [get hitv_addChild spread_children children].
      rewrite nth_error_app1 by (apply nth_error_Some; congruence).
      rewrite Hc. repeat split; [exact Hg|now left].
    + cbn [get spread_children children]. rewrite nth_error_map, Hc.
      cbn [option_map]. now apply IH.
Qed.

(** X6: in every tree, also one with repeated ids, [addChild] removes and
    moves nothing: every node is found where it was, with its id, label and
    flags, and with the children it had or, if its id is [parentId], at most
    one more. *)
Theorem addChild_keeps_every_node (st : Index) (parentId : JSString) (e : Env)
  (p : list nat) (n : FlowchartNode) :
  get p (flowchart st) = Some n ->
  exists n',
    get p (flowchart (addChild parentId e st)) = Some n'
    /\ fields n' = fields n
    /\ (length (children n') = length (children n)
        \/ (id n = parentId /\ length (children n') = S (length (children n)))).
Proof.
  intros Hg.
  destruct (addChild_value_get parentId (makeChildId e) p (flowchart st) Hg)
    as (n1 & G1 & F1 & L1).
  destruct (get_of_content_eq _ _ p (addChild_content parentId e st) G1)
    as (n' & G' & En).
  exists n'. split; [exact G'|]. split.
  - now rewrite <- (fields_content n'), En, fields_content.
  - rewrite <- (children_content_length n'), En, children_content_length.
    exact L1.
Qed.

Lemma addChild_keeps_every_node_witness :
  exists n',
    get [1] (flowchart (addChild (str "root") env1 two_children)) = Some n'
    /\ name n' = str "Button 2".
Proof.
  destruct (@addChild_keeps_every_node two_children (str "root") env1 [1] _
              eq_refl) as (n' & G & F & _).
  exists n'. split; [exact G|].
  now apply (f_equal (fun f => snd (fst (fst f)))) in F.
Defined.

(** *** Calls on the root *)

Lemma addChild_root (e : Env) (st : Index) :
  id (flowchart st) = str "root" ->
  content (flowchart (addChild (str "root") e st))
  = content (hitv_addChild (makeChildId e) (flowchart st)).
Proof.
  intros H. rewrite addChild_content.
  destruct (flowchart st) as [r i nm cs ed v]. cbn [id] in H. subst i.
  cbn [pathCopy_value id]. now rewrite strict_eq_refl.
Qed.

Lemma addChildren_root (envs : list Env) :
  forall st,
    id (flowchart st) = str "root" ->
    let st' := addChildren (map (fun e => (str "root", e)) envs) st in
    id (flowchart st') = str "root"
    /\ map name (children (flowchart st'))
       = map name (children (flowchart st))
           ++ map button_label
                (seq (S (length (children (flowchart st)))) (length envs)).
Proof.
  induction envs as [|e envs IH]; intros st H; cbv zeta in *;
    cbn [map addChildren length seq].
  - split; [exact H|]. now rewrite app_nil_r.
  - pose proof (addChild_root e st H) as E.
    assert (H1 : id (flowchart (addChild (str "root") e st)) = str "root").
    { apply (f_equal id) in E.
      destruct (flowchart (addChild (str "root") e st)),
        (flowchart st). cbn in *. congruence. }
    assert (N1 : map name (children (flowchart (addChild (str "root") e st)))
                 = map name (children (flowchart st))
                     ++ [button_label (S (length (children (flowchart st))))]).
    { apply (f_equal (fun t => map name (children t))) in E.
      destruct (flowchart (addChild (str "root") e st)) as [r i nm cs ed v],
        (flowchart st) as [r0 i0 nm0 cs0 ed0 v0].
      cbn [content children hitv_addChild spread_children] in E.
      rewrite !map_map in E. cbn [children]. cbn [content name] in E.
      rewrite <- (map_ext name (fun x => name (content x))) in E
        by (now intros []).
      rewrite E. rewrite map_app.
      rewrite <- (map_ext name (fun x => name (content x))) by (now intros []).
      cbn [map]. unfold button_label, newChild.
      cbn [content name children]. now rewrite Nat.add_1_r. }
    destruct (IH (addChild (str "root") e st) H1) as [I1 I2].
    split; [exact I1|].
    assert (L : length (children (flowchart (addChild (str "root") e st)))
                = S (length (children (flowchart st)))).
    { apply (f_equal (@length JSString)) in N1.
      rewrite !length_map, length_app in N1.
      rewrite !length_map in N1. cbn [length] in N1. lia. }
    rewrite I2, N1, L, <- app_assoc. reflexivity.
Qed.

(** X7: any number of [addChild("root")] calls on the initial tree, whatever
    ids they generate, leaves the root with exactly that many children,
    labelled "Button 1", "Button 2", ... in this order. *)
Theorem addChild_root_labels (envs : list Env) :
  map name
    (children
       (flowchart (addChildren (map (fun e => (str "root", e)) envs) initial)))
  = map button_label (seq 1 (length envs)).
Proof.
  exact (proj2 (addChildren_root envs initial eq_refl)).
Qed.

(** ** What [trim] leaves of the edit buffer *)

Lemma trimStart_keeps (c : N) (r : JSString) :
  isWhiteSpace c = false -> trimStart (c :: r) = c :: r.
Proof. intros H. cbn. now rewrite H. Qed.

Lemma trimStart_decompose (s : JSString) :
  exists a, s = a ++ trimStart s /\ Forall white a.
Proof.
  induction s as [|c s (a & E & Ha)].
  - exists []. split; [reflexivity|constructor].
  - cbn [trimStart]. destruct (isWhiteSpace c) eqn:Hc.
    + exists (c :: a). split; [cbn; now rewrite <- E|now constructor].
    + exists []. split; [reflexivity|constructor].
Qed.

Lemma trimStart_head (s : JSString) (c : N) (r : JSString) :
  trimStart s = c :: r -> isWhiteSpace c = false.
Proof.
  induction s as [|a s IH]; cbn [trimStart]; [discriminate|].
  destruct (isWhiteSpace a) eqn:Ha; [exact IH|]. intros H. congruence.
Qed.

Lemma trimStart_idempotent (s : JSString) :
  trimStart (trimStart s) = trimStart s.
Proof.
  destruct (trimStart s) as [|c r] eqn:E; [reflexivity|].
  apply trimStart_keeps. now apply (@trimStart_head s c r E).
Qed.

Lemma trimStart_snoc (l : JSString) (c : N) :
  isWhiteSpace c = false -> trimStart (l ++ [c]) = trimStart l ++ [c].
Proof.
  intros Hc. induction l as [|a l IH]; cbn [app trimStart].
  - now rewrite Hc.
  - destruct (isWhiteSpace a); [exact IH|reflexivity].
Qed.

Lemma trimEnd_cons (c : N) (r : JSString) :
  isWhiteSpace c = false -> trimEnd (c :: r) = c :: trimEnd r.
Proof.
  intros Hc. unfold trimEnd. cbn [rev].
  rewrite (@trimStart_snoc (rev r) c Hc), rev_app_distr. reflexivity.
Qed.

Lemma trimEnd_decompose (s : JSString) :
  exists b, s = trimEnd s ++ b /\ Forall white b.
Proof.
  destruct (trimStart_decompose (rev s)) as (a & E & Ha).
  exists (rev a). split.
  - unfold trimEnd. rewrite <- rev_app_distr, <- E. now rewrite rev_involutive.
  - now apply Forall_rev.
Qed.

Lemma trimEnd_last (s l : JSString) (c : N) :
  trimEnd s = l ++ [c] -> isWhiteSpace c = false.
Proof.
  unfold trimEnd. intros H. apply (f_equal (@rev N)) in H.
  rewrite rev_involutive, rev_app_distr in H. cbn in H.
  now apply (@trimStart_head (rev s) c (rev l) H).
Qed.

Lemma trimEnd_idempotent (s : JSString) : trimEnd (trimEnd s) = trimEnd s.
Proof.
  unfold trimEnd. now rewrite rev_involutive, trimStart_idempotent.
Qed.

Lemma trim_head (s : JSString) (c : N) (r : JSString) :
  trim s = c :: r -> isWhiteSpace c = false.
Proof.
  unfold trim. destruct (trimStart s) as [|a t] eqn:E; [discriminate|].
  pose proof (@trimStart_head s a t E) as Ha.
  rewrite (@trimEnd_cons a t Ha). intros H. congruence.
Qed.

Lemma trim_idempotent (s : JSString) : trim (trim s) = trim s.
Proof.
  unfold trim at 1. destruct (trim s) as [|c r] eqn:E; [reflexivity|].
  rewrite (@trimStart_keeps c r (@trim_head s c r E)). rewrite <- E.
  unfold trim. apply trimEnd_idempotent.
Qed.

(** X8: [trim] takes white space, and nothing else, off both ends of the edit
    buffer: the buffer is white space, the trimmed text, white space; the
    trimmed text neither starts nor ends with white space; trimming again
    changes nothing.  So the label that [handleSaveEdit] stores is never
    empty and has no white space at its ends. *)
Theorem trim_takes_white_space_off_the_ends (editValue : JSString) :
  (exists a b,
      editValue = a ++ trim editValue ++ b /\ Forall white a /\ Forall white b)
  /\ (forall c r, trim editValue = c :: r -> isWhiteSpace c = false)
  /\ (forall l c, trim editValue = l ++ [c] -> isWhiteSpace c = false)
  /\ trim (trim editValue) = trim editValue
  /\ (forall node st,
         truthy (trim editValue) = true ->
         exists u,
           snd (handleSaveEdit node editValue st) = updateNode (id node) u st
           /\ u_name u = Some (trim editValue)
           /\ well_trimmed (trim editValue)).
Proof.
  split; [|split; [|split; [|split]]].
  - destruct (trimStart_decompose editValue) as (a & Ea & Ha).
    destruct (trimEnd_decompose (trimStart editValue)) as (b & Eb & Hb).
    exists a, b. split; [|now split].
    unfold trim. now rewrite <- Eb.
  - apply trim_head.
  - unfold trim. apply trimEnd_last.
  - apply trim_idempotent.
  - intros node st H. unfold handleSaveEdit. rewrite H. cbn [snd].
    eexists. split; [reflexivity|]. split; [reflexivity|]. split.
    + intros E. rewrite E in H. discriminate.
    + apply trim_idempotent.
Qed.

(** ** The states of the page *)

Lemma all_fields_content (t : FlowchartNode) :
  all_fields (content t) = all_fields t.
Proof.
  induction t as [r ti tn cs e v IH] using FlowchartNode_tree_ind.
  cbn [content all_fields children]. f_equal. rewrite flat_map_concat_map, map_map.
  rewrite flat_map_concat_map. f_equal.
  induction IH as [|c l Hc _ IHl]; cbn [map]; [reflexivity|].
  now rewrite Hc, IHl.
Qed.

Lemma ids_all_fields (t : FlowchartNode) :
  ids t = map (fun f => fst (fst (fst f))) (all_fields t).
Proof.
  induction t as [r ti tn cs e v IH] using FlowchartNode_tree_ind.
  cbn [ids all_fields id children map fields fst]. f_equal.
  induction IH as [|c l Hc _ IHl]; cbn [flat_map]; [reflexivity|].
  now rewrite map_app, <- Hc, <- IHl.
Qed.

Section AllFields.

Variable Q : JSString * JSString * bool * bool -> Prop.
Variable key : JSString.
Variable hitv : FlowchartNode -> FlowchartNode.

Hypothesis hitv_ok :
  forall n, Forall Q (all_fields n) -> Forall Q (all_fields (hitv n)).

Lemma pathCopy_value_all_fields (t : FlowchartNode) :
  Forall Q (all_fields t) ->
  Forall Q (all_fields (pathCopy_value key hitv t)).
Proof.
  induction t as [r ti tn cs e v IH] using FlowchartNode_tree_ind.
  intros H. cbn [pathCopy_value id children].
  destruct (strict_eq ti key); [now apply hitv_ok|].
  cbn [all_fields children spread_children] in *.
  apply Forall_cons_iff in H as [H0 H]. constructor; [exact H0|].
  apply Forall_flat_map in H. apply Forall_flat_map, Forall_map.
  rewrite Forall_forall in *. intros c Hc. apply (IH c Hc), (H c Hc).
Qed.

End AllFields.

Lemma updateNode_all_fields (k : JSString) (u : Updates) (st : Index) :
  all_fields (flowchart (updateNode k u st))
  = all_fields (pathCopy_value k (hitv_update u) (flowchart st)).
Proof.
  rewrite <- all_fields_content, updateNode_content. apply all_fields_content.
Qed.

Lemma addChild_all_fields (k : JSString) (e : Env) (st : Index) :
  all_fields (flowchart (addChild k e st))
  = all_fields (pathCopy_value k (hitv_addChild (makeChildId e)) (flowchart st)).
Proof.
  rewrite <- all_fields_content, addChild_content. apply all_fields_content.
Qed.

(** Every event is a call of [updateNode] with updates of a handler, a call
    of [addChild], the click on the truncate control, or a key that is left
    to the input. *)
Lemma step_cases (st st' : Index) :
  step st st' ->
  (exists k u, st' = updateNode k u st /\ handler_updates u)
  \/ (exists k e, st' = addChild k e st)
  \/ st' = toggleTruncateText st
  \/ st' = st.
Proof.
  assert (F : handler_updates (mkUpdates None None None (Some false) None))
    by (repeat split; discriminate).
  assert (S : forall node editValue,
             exists k u, snd (handleSaveEdit node editValue st)
                         = updateNode k u st /\ handler_updates u).
  { intros node editValue. unfold handleSaveEdit.
    destruct (truthy (trim editValue)) eqn:T; cbn [snd];
      eexists; eexists; (split; [reflexivity|]); [|exact F].
    split; [reflexivity|split; [reflexivity|]].
    cbn. intros s0 [= <-]. split; [|apply trim_idempotent].
    intros E. rewrite E in T. discriminate. }
  intros [p node ev Hg Hs He|p node key ev Hg Hs He|p node ev Hg Hs He
         |p node ev Hg Hs Hc|p node e Hg Hs|].
  - left. unfold handleDoubleClick. cbn [snd]. eexists. eexists.
    split; [reflexivity|]. repeat split; discriminate.
  - unfold handleKeyPress.
    destruct (strict_eq key (str "Enter")); [left; apply S|].
    destruct (strict_eq key (str "Escape")).
    + left. unfold handleCancelEdit. cbn [snd]. eexists. eexists.
      split; [reflexivity|exact F].
    + right. right. right. reflexivity.
  - left. apply S.
  - left. unfold toggleChildrenVisibility. cbn [snd]. eexists. eexists.
    split; [reflexivity|]. repeat split; discriminate.
  - right. left. eexists. eexists. reflexivity.
  - right. right. left. reflexivity.
Qed.

Lemma digits_not_white (u : Decimal.uint) :
  Forall (fun c => isWhiteSpace c = false) (digits u).
Proof. induction u; cbn [digits]; constructor; auto. Qed.

Lemma decimal_not_empty (n : N) : decimal n <> [].
Proof.
  unfold decimal. destruct n as [|p]; [discriminate|]. cbn [N.to_uint].
  pose proof (DecimalPos.Unsigned.to_uint_nonnil p) as H.
  destruct (Pos.to_uint p); [contradiction| | | | | | | | | |]; discriminate.
Qed.

Lemma trimEnd_snoc_keeps (l : JSString) (d : N) :
  isWhiteSpace d = false -> trimEnd (l ++ [d]) = l ++ [d].
Proof.
  intros H. unfold trimEnd. rewrite rev_app_distr. cbn [rev app].
  rewrite (@trimStart_keeps d (rev l) H). cbn [rev].
  now rewrite rev_involutive.
Qed.

Lemma button_label_well_trimmed (n : N) :
  well_trimmed (str "Button " ++ decimal n).
Proof.
  split; [discriminate|].
  destruct (exists_last (decimal_not_empty n)) as (l & d & E).
  assert (Hd : isWhiteSpace d = false).
  { pose proof (digits_not_white (N.to_uint n)) as F.
    fold (decimal n) in F. rewrite E in F.
    apply Forall_app in F as [_ F]. now inversion F. }
  unfold trim. rewrite E.
  change (str "Button " ++ l ++ [d])
    with (66%N :: (tl (str "Button ") ++ l ++ [d])).
  rewrite trimStart_keeps by reflexivity.
  change (66%N :: (tl (str "Button ") ++ l ++ [d]))
    with ((str "Button " ++ l ++ [d])).
  rewrite app_assoc. now apply trimEnd_snoc_keeps.
Qed.

Lemma makeChildId_generated (e : Env) : generated (makeChildId e).
Proof. reflexivity. Qed.

Lemma generated_not_root (k : JSString) : generated k -> k <> str "root".
Proof. unfold generated. intros H ->. discriminate. Qed.

(** *** Labels *)

Lemma update_value_labels (k : JSString) (u : Updates) (t : FlowchartNode) :
  handler_updates u ->
  Forall (fun f => well_trimmed (snd (fst (fst f)))) (all_fields t) ->
  Forall (fun f => well_trimmed (snd (fst (fst f))))
    (all_fields (pathCopy_value k (hitv_update u) t)).
Proof.
  intros (Hi & Hc & Hn). apply pathCopy_value_all_fields.
  intros [r i nm cs e v] H. cbn [all_fields fields children] in H.
  apply Forall_cons_iff in H as [H0 H].
  unfold hitv_update, spread_updates. rewrite Hc.
  cbn [all_fields fields pick children id name isEditing childrenVisible].
  constructor; [|exact H]. cbn [fst snd] in *.
  destruct (u_name u) as [s|] eqn:E; cbn [pick]; [now apply Hn|exact H0].
Qed.

Lemma addChild_value_labels (k childId : JSString) (t : FlowchartNode) :
  Forall (fun f => well_trimmed (snd (fst (fst f)))) (all_fields t) ->
  Forall (fun f => well_trimmed (snd (fst (fst f))))
    (all_fields (pathCopy_value k (hitv_addChild childId) t)).
Proof.
  apply pathCopy_value_all_fields.
  intros [r i nm cs e v] H. cbn [all_fields fields children] in H.
  apply Forall_cons_iff in H as [H0 H].
  unfold hitv_addChild, spread_children.
  cbn [all_fields fields children id name isEditing childrenVisible].
  constructor; [exact H0|]. rewrite flat_map_app. apply Forall_app.
  split; [exact H|]. cbn. constructor; [|constructor].
  cbn [fst snd]. apply button_label_well_trimmed.
Qed.

Lemma two_children_reachable : reachable two_children.
Proof.
  unfold two_children. cbn [addChildren].
  eapply reachable_step.
  - eapply reachable_step; [apply reachable_initial|].
    apply (@step_add initial [] (flowchart initial) env1); reflexivity.
  - apply (@step_add (addChild (str "root") env1 initial) []
             (flowchart (addChild (str "root") env1 initial)) env2);
      reflexivity.
Qed.

(** X9: in every state of the page, every label is a text that is not empty
    and has no white space at either end. *)
Theorem reachable_labels_well_trimmed (st : Index) :
  reachable st -> Forall well_trimmed (names (flowchart st)).
Proof.
  intros R. unfold names. apply Forall_map.
  induction R as [|st st' R IH S].
  - cbn. constructor; [|constructor]. split; [discriminate|reflexivity].
  - destruct (step_cases S) as [(k & u & -> & Hu)|[(k & e & ->)|[->| ->]]].
    + rewrite updateNode_all_fields. now apply update_value_labels.
    + rewrite addChild_all_fields. now apply addChild_value_labels.
    + exact IH.
    + exact IH.
Qed.

Lemma reachable_labels_well_trimmed_witness :
  Forall well_trimmed (names (flowchart two_children)).
Proof.
  exact (@reachable_labels_well_trimmed two_children two_children_reachable).
Defined.

(** *** Ids *)

Lemma addChild_value_generated (k childId : JSString) (t : FlowchartNode) :
  generated childId ->
  Forall generated (ids t) ->
  Forall generated (ids (pathCopy_value k (hitv_addChild childId) t)).
Proof.
  intros Hc.
  induction t as [r ti tn cs e v IH] using FlowchartNode_tree_ind.
  intros H. cbn [ids id children] in H. apply Forall_cons_iff in H as [H0 H].
  cbn [pathCopy_value id children]. destruct (strict_eq ti k).
  - cbn [hitv_addChild spread_children ids id children].
    constructor; [exact H0|]. rewrite flat_map_app. apply Forall_app.
    split; [exact H|]. cbn. constructor; [exact Hc|constructor].
  - cbn [spread_children ids id children]. constructor; [exact H0|].
    apply Forall_flat_map in H. apply Forall_flat_map, Forall_map.
    rewrite Forall_forall in *. intros c Hin. apply (IH c Hin), (H c Hin).
Qed.

Lemma addChild_value_root (k childId : JSString) (t : FlowchartNode) :
  generated childId ->
  Forall generated (tl (ids t)) ->
  id (pathCopy_value k (hitv_addChild childId) t) = id t
  /\ Forall generated (tl (ids (pathCopy_value k (hitv_addChild childId) t))).
Proof.
  intros Hc. destruct t as [r ti tn cs e v]. cbn [ids tl id children].
  intros H. cbn [pathCopy_value id children]. destruct (strict_eq ti k).
  - cbn [hitv_addChild spread_children ids id children tl].
    split; [reflexivity|]. rewrite flat_map_app. apply Forall_app.
    split; [exact H|]. cbn. constructor; [exact Hc|constructor].
  - cbn [spread_children ids id children tl]. split; [reflexivity|].
    apply Forall_flat_map in H. apply Forall_flat_map, Forall_map.
    apply Forall_forall. intros c Hin.
    apply addChild_value_generated; [exact Hc|].
    exact (proj1 (Forall_forall _ _) H c Hin).
Qed.

(** X10: in every state of the page the root has the id ["root"], and every
    other node an id that begins with ["node-"]; so no other node has the
    id of the root. *)
Theorem reachable_ids (st : Index) :
  reachable st ->
  id (flowchart st) = str "root"
  /\ Forall generated (tl (ids (flowchart st)))
  /\ ~ In (str "root") (tl (ids (flowchart st))).
Proof.
  intros R.
  assert (I : id (flowchart st) = str "root"
              /\ Forall generated (tl (ids (flowchart st)))).
  { induction R as [|st st' R [I1 I2] S].
    - split; [reflexivity|constructor].
    - destruct (step_cases S) as [(k & u & -> & Hi & Hc & _)|[(k & e & ->)|[->| ->]]].
      + destruct (updateNode_ids_shape k u st Hi Hc) as [E _].
        assert (Hid : id (flowchart (updateNode k u st)) = id (flowchart st)).
        { apply (f_equal (hd [])) in E.
          now destruct (flowchart (updateNode k u st)), (flowchart st). }
        rewrite Hid, E. now split.
      + assert (E : ids (flowchart (addChild k e st))
                    = ids (pathCopy_value k (hitv_addChild (makeChildId e))
                             (flowchart st))).
        { rewrite <- (content_ids (flowchart (addChild k e st))).
          now rewrite addChild_content, content_ids. }
        destruct (addChild_value_root k (flowchart st)
                    (makeChildId_generated e) I2) as [A B].
        assert (Hid : id (flowchart (addChild k e st)) = id (flowchart st)).
        { rewrite <- A. apply (f_equal (hd [])) in E.
          now destruct (flowchart (addChild k e st)),
            (pathCopy_value k (hitv_addChild (makeChildId e)) (flowchart st)). }
        rewrite Hid, E. now split.
      + now split.
      + now split. }
  destruct I as [I1 I2]. split; [exact I1|]. split; [exact I2|].
  intros F. rewrite Forall_forall in I2.
  now apply (generated_not_root (I2 _ F)).
Qed.

Lemma reachable_ids_witness :
  id (flowchart two_children) = str "root"
  /\ ~ In (str "root") (tl (ids (flowchart two_children))).
Proof.
  destruct (@reachable_ids two_children two_children_reachable) as (A & _ & B).
  exact (conj A B).
Defined.

(** *** Growth *)

Lemma update_value_get_id (k : JSString) (u : Updates) (p : list nat) :
  u_id u = None -> u_children u = None ->
  forall t n,
    get p t = Some n ->
    exists n', get p (pathCopy_value k (hitv_update u) t) = Some n'
               /\ id n' = id n
               /\ length (children n') = length (children n).
Proof.
  intros Hi Hc.
  induction p as [|i p IH]; intros [r ti tn cs e v] n Hg.
  - cbn [get] in Hg. injection Hg as <-. cbn [pathCopy_value id children get].
    destruct (strict_eq ti k); eexists; split; try reflexivity; cbn.
    + now rewrite Hi, Hc.
    + split; [reflexivity|apply length_map].
  - cbn [get children] in Hg.
    destruct (nth_error cs i) as [c|] eqn:E; [|discriminate].
    cbn [pathCopy_value id children]. destruct (strict_eq ti k).
    + exists n. cbn [get hitv_update spread_updates children]. rewrite Hc.
      cbn [pick]. rewrite E. now repeat split.
    + cbn [get spread_children children]. rewrite nth_error_map, E.
      cbn [option_map]. now apply IH.
Qed.

Lemma id_content (t : FlowchartNode) : id (content t) = id t.
Proof. now destruct t. Qed.

Lemma step_keeps_nodes (st st' : Index) :
  step st st' ->
  forall p n,
    get p (flowchart st) = Some n ->
    exists n', get p (flowchart st') = Some n'
               /\ id n' = id n
               /\ length (children n) <= length (children n').
Proof.
  intros S p n Hg.
  destruct (step_cases S) as [(k & u & -> & Hi & Hc & _)|[(k & e & ->)|[->| ->]]].
  - destruct (update_value_get_id k u p Hi Hc (flowchart st) Hg)
      as (n1 & G1 & I1 & L1).
    destruct (get_of_content_eq _ _ p (updateNode_content k u st) G1)
      as (n' & G' & En).
    exists n'. split; [exact G'|]. split.
    + now rewrite <- (id_content n'), En, id_content.
    + rewrite <- (children_content_length n'), En, children_content_length. lia.
  - destruct (addChild_value_get k (makeChildId e) p (flowchart st) Hg)
      as (n1 & G1 & F1 & L1).
    destruct (get_of_content_eq _ _ p (addChild_content k e st) G1)
      as (n' & G' & En).
    exists n'. split; [exact G'|]. split.
    + rewrite <- (id_content n'), En, id_content.
      now apply (f_equal (fun f => fst (fst (fst f)))) in F1.
    + rewrite <- (children_content_length n'), En, children_content_length.
      destruct L1 as [L|[_ L]]; lia.
  - exists n. cbn. repeat split; [exact Hg|lia].
  - exists n. repeat split; [exact Hg|lia].
Qed.

(** X11: no event removes or moves a node: after any number of events, a node
    is still found at its place, with its id, and with at least as many
    children as it had. *)
Theorem events_never_remove_nodes (st st' : Index) :
  steps st st' ->
  forall p n,
    get p (flowchart st) = Some n ->
    exists n', get p (flowchart st') = Some n'
               /\ id n' = id n
               /\ length (children n) <= length (children n').
Proof.
  induction 1 as [|st' st'' _ IH S]; intros p n Hg.
  - exists n. repeat split; [exact Hg|lia].
  - destruct (IH p n Hg) as (n1 & G1 & I1 & L1).
    destruct (step_keeps_nodes S p G1) as (n' & G' & I' & L').
    exists n'. split; [exact G'|]. split; [congruence|lia].
Qed.

Lemma events_never_remove_nodes_witness :
  exists n',
    get [] (flowchart two_children) = Some n'
    /\ id n' = str "root" /\ 0 <= length (children n').
Proof.
  assert (S : steps initial two_children).
  { unfold two_children. cbn [addChildren].
    eapply steps_more.
    - eapply steps_more; [apply steps_none|].
      apply (@step_add initial [] (flowchart initial) env1); reflexivity.
    - apply (@step_add (addChild (str "root") env1 initial) []
               (flowchart (addChild (str "root") env1 initial)) env2);
        reflexivity. }
  exact (@events_never_remove_nodes initial two_children S [] _ eq_refl).
Defined.

(** ** More on the layout *)

Lemma ltb_leb (a b : float) :
  PrimFloat.ltb a b = true -> PrimFloat.leb a b = true.
Proof.
  rewrite FloatAxioms.ltb_spec, FloatAxioms.leb_spec.
  unfold SpecFloat.SFltb, SpecFloat.SFleb.
  destruct (SpecFloat.SFcompare (Prim2SF a) (Prim2SF b)) as [[| |]|];
    congruence.
Qed.

Lemma width_of_length_small (n : nat) :
  n <= 5 -> width_of_length n = 8%float.
Proof.
  intros H. do 6 (destruct n as [|n]; [vm_compute; reflexivity|]). lia.
Qed.

(** X12: the box is never narrower than 8 rem, whatever the text; it is
    exactly 8 rem for a text of up to 5 code units, and wider from 6 on
    (shown up to 1000). *)
Theorem getButtonWidth_at_least_8 (text : JSString) :
  PrimFloat.leb 8 (getButtonWidth text) = true
  /\ (length text <= 5 -> getButtonWidth text = 8%float)
  /\ (6 <= length text <= 1000 ->
      PrimFloat.ltb 8 (getButtonWidth text) = true).
Proof.
  split; [|split].
  - unfold getButtonWidth, Math_max.
    destruct (PrimFloat.ltb 8
                (number_of_length (length text) * 0.7 + 4)%float) eqn:E.
    + now apply ltb_leb.
    + vm_compute. reflexivity.
  - intros H. rewrite getButtonWidth_length. now apply width_of_length_small.
  - intros H. rewrite getButtonWidth_length.
    assert (A : forallb (fun k => PrimFloat.ltb 8 (width_of_length k))
                  (seq 6 995) = true) by (vm_compute; reflexivity).
    rewrite forallb_forall in A. apply A, in_seq. lia.
Qed.

Lemma getButtonWidth_at_least_8_witness :
  getButtonWidth (str "Start") = 8%float.
Proof.
  apply (proj1 (proj2 (@getButtonWidth_at_least_8 (str "Start")))).
  vm_compute. lia.
Defined.

Lemma getDisplayText_length_long (s : JSString) :
  20 < length s -> length (getDisplayText true s) = 23.
Proof.
  intros H. unfold getDisplayText. cbn [negb orb].
  apply Nat.leb_gt in H. rewrite H. apply Nat.leb_gt in H.
  rewrite substring_0_20 by exact H.
  rewrite length_app, length_firstn. cbn [str length map list_ascii_of_string].
  lia.
Qed.

(** X13: cutting a label does not always shorten it.  With the truncate flag
    on, a label of 21 or 22 code units is shown with 23 and its box is wider
    than with the flag off; at 23 the two widths are equal; from 24 on
    (shown up to 1000) the box with the flag on is the narrower one; up to
    20 the flag makes no difference. *)
Theorem truncation_can_widen (node : FlowchartNode) (editValue : JSString) :
  isEditing node = false ->
  let n := length (name node) in
  let on := buttonWidth true node editValue in
  let off := buttonWidth false node editValue in
  (n <= 20 -> on = off)
  /\ (n = 21 \/ n = 22 ->
      length (displayText true node) = 23 /\ PrimFloat.ltb off on = true)
  /\ (n = 23 -> on = off)
  /\ (24 <= n <= 1000 -> PrimFloat.ltb on off = true).
Proof.
  intros He n on off. subst n on off. unfold buttonWidth, displayText.
  rewrite He. rewrite !getButtonWidth_length.
  split; [|split; [|split]].
  - intros H. unfold getDisplayText. apply Nat.leb_le in H. rewrite H.
    now rewrite orb_true_r.
  - intros H. rewrite getDisplayText_length_long by lia.
    split; [reflexivity|]. destruct H as [-> | ->]; vm_compute; reflexivity.
  - intros H. rewrite getDisplayText_length_long by lia. now rewrite H.
  - intros H. rewrite getDisplayText_length_long by lia.
    assert (A : forallb (fun k => PrimFloat.ltb (width_of_length 23)
                                    (width_of_length k))
                  (seq 24 977) = true) by (vm_compute; reflexivity).
    rewrite forallb_forall in A. apply A, in_seq. lia.
Qed.

Lemma truncation_can_widen_witness :
  PrimFloat.ltb
    (buttonWidth false
       (mkNode 0 (str "root") (str "ABCDEFGHIJKLMNOPQRSTU") [] false true) [])
    (buttonWidth true
       (mkNode 0 (str "root") (str "ABCDEFGHIJKLMNOPQRSTU") [] false true) [])
  = true.
Proof.
  apply (proj1 (proj2 (@truncation_can_widen
                         (mkNode 0 (str "root") (str "ABCDEFGHIJKLMNOPQRSTU")
                            [] false true) [] eq_refl))).
  left. reflexivity.
Defined.

(** *** The rendered tree *)

Section Render.

Variable truncate : bool.
Variable editValues : JSString -> JSString.


End Render.





Section RenderedBoxes.

Variable truncate : bool.
Variable editValues : JSString -> JSString.


End RenderedBoxes.



(** X15: in a tree with pairwise distinct ids, a child added to a collapsed
    node is in the tree, but the node stays collapsed and shows no child
    row. *)
Theorem addChild_keeps_collapsed (st : Index) (p : list nat)
  (node : FlowchartNode) (e : Env) :
  NoDup (ids (flowchart st)) ->
  get p (flowchart st) = Some node ->
  childrenVisible node = false ->
  exists node',
    get p (flowchart (addChild (id node) e st)) = Some node'
    /\ length (children node') = S (length (children node))
    /\ childrenVisible node' = false
    /\ forall truncate editValues depth,
         child_row_of (render truncate editValues node' depth) = None.
Proof.
  intros ND Hg Hv.
  pose proof (addChild_content (id node) e st) as E.
  rewrite (@pathCopy_value_modifyAt (id node) (hitv_addChild (makeChildId e)) p
             (flowchart st) node ND Hg eq_refl) in E.
  pose proof (get_modifyAt (hitv_addChild (makeChildId e)) p (flowchart st) Hg)
    as G.
  destruct (get_of_content_eq _ _ p E G) as (n' & G' & En).
  exists n'. split; [exact G'|].
  assert (L : length (children n') = S (length (children node))).
  { rewrite <- (children_content_length n'), En, children_content_length.
    cbn. rewrite length_app. cbn. lia. }
  assert (V : childrenVisible n' = false).
  { destruct n', node. cbn in En. injection En as _ _ _ _ ->. exact Hv. }
  split; [exact L|]. split; [exact V|].
  intros truncate editValues depth. destruct n' as [r i nm cs ed vis].
  cbn [childrenVisible] in V. subst vis.
  cbn [render child_row_of]. now rewrite andb_false_r.
Qed.

(** ** When generated ids are equal *)

Lemma digits_injective (u u' : Decimal.uint) : digits u = digits u' -> u = u'.
Proof.
  revert u'. induction u; destruct u'; cbn [digits]; intros H;
    try discriminate; try reflexivity; injection H as H; f_equal; auto.
Qed.

Lemma decimal_injective (n n' : N) : decimal n = decimal n' -> n = n'.
Proof.
  intros H. apply DecimalN.Unsigned.to_uint_inj. now apply digits_injective.
Qed.

Lemma digits_no_hyphen (u : Decimal.uint) :
  Forall (fun c => c <> 45%N) (digits u).
Proof. induction u; cbn [digits]; constructor; auto; discriminate. Qed.

Lemma split_at_hyphen (d1 d2 s1 s2 : JSString) :
  Forall (fun c => c <> 45%N) d1 -> Forall (fun c => c <> 45%N) d2 ->
  d1 ++ 45%N :: s1 = d2 ++ 45%N :: s2 -> d1 = d2 /\ s1 = s2.
Proof.
  intros H1. revert d2. induction H1 as [|c d1 Hc _ IH]; intros d2 H2 E.
  - destruct H2 as [|c' d2 Hc' _]; cbn in E.
    + injection E as ->. now split.
    + injection E as E _. congruence.
  - destruct H2 as [|c' d2 Hc' H2]; cbn in E.
    + injection E as E _. congruence.
    + injection E as -> E. destruct (IH d2 H2 E) as [-> ->]. now split.
Qed.

(** X16: two generated ids are equal exactly when the two calls read the same
    clock value and the same characters 2 to 10 of the random text.  So
    children made at different clock values never share an id, whatever the
    random digits. *)
Theorem makeChildId_equal_iff (e1 e2 : Env) :
  makeChildId e1 = makeChildId e2
  <-> Date_now e1 = Date_now e2
      /\ substr (Math_random_toString36 e1) 2 9
         = substr (Math_random_toString36 e2) 2 9.
Proof.
  unfold makeChildId. split.
  - intros H. apply app_inv_head in H.
    change (str "-") with [45%N] in H. cbn [app] in H.
    apply split_at_hyphen in H; try apply digits_no_hyphen.
    destruct H as [H1 H2]. split; [now apply decimal_injective|exact H2].
  - intros [-> ->]. reflexivity.
Qed.

(** ** The theorems above on the two-children tree *)

Lemma two_children_NoDup : NoDup (ids (flowchart two_children)).
Proof. vm_compute. repeat constructor; cbn; intuition discriminate. Qed.

Lemma handleSaveEdit_twice_witness :
  content
    (flowchart
       (snd (handleSaveEdit (flowchart two_children) (str " Begin ")
               (snd (handleSaveEdit (flowchart two_children) (str " Begin ")
                       two_children)))))
  = content
      (flowchart
         (snd (handleSaveEdit (flowchart two_children) (str " Begin ")
                 two_children))).
Proof.
  exact (@handleSaveEdit_twice (flowchart two_children) (flowchart two_children)
           (str " Begin ") two_children eq_refl).
Defined.

Lemma toggleChildrenVisibility_twice_witness :
  content
    (flowchart
       (snd (toggleChildrenVisibility
               (flowchart
                  (snd (toggleChildrenVisibility (flowchart two_children) []
                          two_children)))
               []
               (snd (toggleChildrenVisibility (flowchart two_children) []
                       two_children)))))
  = content (flowchart two_children).
Proof.
  exact (proj2 (proj2 (@toggleChildrenVisibility_twice two_children []
                         (flowchart two_children) _ [] []
                         two_children_NoDup eq_refl eq_refl))).
Defined.

Lemma handleDoubleClick_then_leave_witness :
  content
    (flowchart
       (snd (handleCancelEdit
               (flowchart (snd (handleDoubleClick (flowchart two_children) []
                                  two_children)))
               (str "typed")
               (snd (handleDoubleClick (flowchart two_children) []
                       two_children)))))
  = content (flowchart two_children).
Proof.
  exact (proj1 (proj2 (proj2 (@handleDoubleClick_then_leave two_children []
                                (flowchart two_children) _ [] (str "typed")
                                two_children_NoDup eq_refl eq_refl eq_refl)))).
Defined.

Lemma addChild_keeps_collapsed_witness :
  exists node',
    get [] (flowchart
              (addChild (str "root") env1
                 (snd (toggleChildrenVisibility (flowchart two_children) []
                         two_children))))
    = Some node'
    /\ length (children node') = 3
    /\ childrenVisible node' = false.
Proof.
  assert (ND : NoDup (ids (flowchart
                             (snd (toggleChildrenVisibility
                                     (flowchart two_children) [] two_children))))).
  { vm_compute. repeat constructor; cbn; intuition discriminate. }
  destruct (@addChild_keeps_collapsed
              (snd (toggleChildrenVisibility (flowchart two_children) []
                      two_children))
              [] _ env1 ND eq_refl eq_refl) as (n' & G & L & V & _).
  exists n'. split; [exact G|]. split; [exact L|exact V].
Defined.

Lemma trim_takes_white_space_off_the_ends_witness :
  isWhiteSpace 97 = false.
Proof.
  exact (proj1 (proj2 (@trim_takes_white_space_off_the_ends (str "  ab c  ")))
           97%N (str "b c") eq_refl).
Defined.

(** ** Nodes in editing state *)

Lemma visited_content (key : JSString) (p : list nat) :
  forall t, visited key p (content t) = visited key p t.
Proof.
  induction p as [|i p IH]; intros [r ti nm cs e v]; [reflexivity|].
  cbn [visited content id children]. rewrite nth_error_map.
  destruct (strict_eq ti key); [reflexivity|].
  destruct (nth_error cs i) as [c|]; cbn [option_map]; [apply IH|reflexivity].
Qed.

Lemma visited_of_content_eq (key : JSString) (p : list nat)
  (a b : FlowchartNode) :
  content a = content b -> visited key p a = visited key p b.
Proof.
  intros E. now rewrite <- (visited_content key p a), E, visited_content.
Qed.

Lemma update_value_visited (k key : JSString) (u : Updates) (p : list nat) :
  u_id u = None -> u_children u = None ->
  forall t,
    visited key p (pathCopy_value k (hitv_update u) t) = visited key p t.
Proof.
  intros Hi Hc. induction p as [|i p IH]; intros [r ti nm cs e v];
    [reflexivity|].
  cbn [pathCopy_value id children]. destruct (strict_eq ti k).
  - cbn [hitv_update spread_updates visited id children obj]. now rewrite Hi, Hc.
  - cbn [spread_children visited id children]. rewrite nth_error_map.
    destruct (strict_eq ti key); [reflexivity|].
    destruct (nth_error cs i) as [c|]; cbn [option_map]; [apply IH|reflexivity].
Qed.

Lemma update_value_get_none (k : JSString) (u : Updates) (p : list nat) :
  u_children u = None ->
  forall t,
    get p t = None -> get p (pathCopy_value k (hitv_update u) t) = None.
Proof.
  intros Hc. induction p as [|i p IH]; intros [r ti nm cs e v] Hg;
    [discriminate|].
  cbn [get children] in Hg. cbn [pathCopy_value id children].
  destruct (strict_eq ti k).
  - cbn [hitv_update spread_updates get children]. rewrite Hc. exact Hg.
  - cbn [spread_children get children]. rewrite nth_error_map.
    destruct (nth_error cs i) as [c|]; cbn [option_map]; [now apply IH|reflexivity].
Qed.

(** At every position, [updateNode] with updates of a handler leaves a node
    of the same id; if the node there was not reached under the key, or has
    another id, it leaves its fields too. *)
Lemma update_value_at (k : JSString) (u : Updates) (p : list nat) :
  u_id u = None -> u_children u = None ->
  forall t n,
    get p t = Some n ->
    exists m,
      get p (pathCopy_value k (hitv_update u) t) = Some m
      /\ id m = id n
      /\ (fields m = fields n \/ (visited k p t = true /\ id n = k)).
Proof.
  intros Hi Hc. induction p as [|i p IH]; intros [r ti nm cs e v] n Hg.
  - cbn [get] in Hg. injection Hg as <-. cbn [pathCopy_value id children get].
    destruct (strict_eq ti k) eqn:E; eexists; split; try reflexivity.
    + cbn. rewrite Hi. split; [reflexivity|]. right.
      split; [reflexivity|now apply strict_eq_true].
    + split; [reflexivity|now left].
  - cbn [get children] in Hg.
    destruct (nth_error cs i) as [c|] eqn:Ec; [|discriminate].
    cbn [pathCopy_value id children visited]. destruct (strict_eq ti k).
    + exists n. cbn [hitv_update spread_updates get children]. rewrite Hc.
      cbn [pick]. rewrite Ec. split; [exact Hg|]. split; [reflexivity|now left].
    + cbn [spread_children get children]. rewrite nth_error_map, Ec.
      cbn [option_map]. now apply IH.
Qed.

(** A position of the tree after [addChild] is a position of the tree
    before, with the same fields there, or holds a node that is not being
    edited. *)
Lemma addChild_value_position (k childId : JSString) (p : list nat) :
  forall t m,
    get p (pathCopy_value k (hitv_addChild childId) t) = Some m ->
    (exists n, get p t = Some n /\ fields m = fields n) \/ isEditing m = false.
Proof.
  induction p as [|i p IH]; intros [r ti nm cs e v] m Hg.
  - left. cbn [get] in *. injection Hg as <-. eexists. split; [reflexivity|].
    cbn [pathCopy_value id]. now destruct (strict_eq ti k).
  - cbn [pathCopy_value id children] in Hg. destruct (strict_eq ti k).
    + cbn [hitv_addChild spread_children get children] in Hg.
      destruct (Nat.lt_ge_cases i (length cs)) as [Hlt|Hge].
      * rewrite nth_error_app1 in Hg by exact Hlt. left. exists m.
        cbn [get children]. split; [exact Hg|reflexivity].
      * rewrite nth_error_app2 in Hg by exact Hge.
        destruct (i - length cs) as [|j]; cbn [nth_error] in Hg.
        -- right. destruct p as [|j q]; cbn [get newChild children] in Hg.
           ++ injection Hg as <-. reflexivity.
           ++ destruct j; discriminate.
        -- destruct j; discriminate.
    + cbn [spread_children get children] in Hg. rewrite nth_error_map in Hg.
      destruct (nth_error cs i) as [c|] eqn:Ec; cbn [option_map] in Hg;
        [|discriminate].
      destruct (IH c m Hg) as [(n & G & F)|F]; [left|now right].
      exists n. cbn [get children]. rewrite Ec. now split.
Qed.

Lemma addChild_value_visited (k childId key : JSString) (p : list nat) :
  forall t,
    get p t <> None ->
    visited key p (pathCopy_value k (hitv_addChild childId) t)
    = visited key p t.
Proof.
  induction p as [|i p IH]; intros [r ti nm cs e v] Hg; [reflexivity|].
  cbn [get children] in Hg.
  destruct (nth_error cs i) as [c|] eqn:Ec; [|contradiction].
  cbn [pathCopy_value id children]. destruct (strict_eq ti k).
  - cbn [hitv_addChild spread_children visited id children].
    rewrite nth_error_app1 by (apply nth_error_Some; congruence).
    now rewrite Ec.
  - cbn [spread_children visited id children]. rewrite nth_error_map, Ec.
    cbn [option_map]. destruct (strict_eq ti key); [reflexivity|].
    now apply IH.
Qed.

Lemma isEditing_of_fields (m n : FlowchartNode) :
  fields m = fields n -> isEditing m = isEditing n /\ id m = id n.
Proof. destruct m, n. cbn. intros [= -> _ -> _]. now split. Qed.

Lemma update_keeps_editing_reached (k : JSString) (u : Updates) (st : Index) :
  u_id u = None -> u_children u = None ->
  editing_reached (flowchart st) ->
  editing_reached (flowchart (updateNode k u st)).
Proof.
  intros Hi Hc Inv p n' Hg' He'.
  pose proof (updateNode_content k u st) as E.
  rewrite (@visited_of_content_eq (id n') p _ _ E).
  rewrite update_value_visited by assumption.
  destruct (get p (flowchart st)) as [n|] eqn:Hg.
  - destruct (@update_value_at k u p Hi Hc (flowchart st) n Hg)
      as (m & Gm & Im & Fm).
    destruct (get_of_content_eq _ _ p E Gm) as (n'' & G'' & En).
    assert (n'' = n') by congruence. subst n''.
    assert (Hm : isEditing m = true /\ id m = id n').
    { destruct (@isEditing_of_fields _ _
                  (eq_trans (eq_sym (fields_content n'))
                     (eq_trans (f_equal fields En) (fields_content m))))
        as [A B]. split; congruence. }
    destruct Hm as [Hm1 Hm2]. rewrite <- Hm2, Im.
    destruct Fm as [F|[V K]].
    + destruct (@isEditing_of_fields _ _ F) as [A _]. apply (Inv p n Hg). congruence.
    + now rewrite K.
  - pose proof (@update_value_get_none k u p Hc (flowchart st) Hg) as N.
    pose proof (get_content p (flowchart (updateNode k u st))) as C.
    rewrite E, get_content, N, Hg' in C. discriminate.
Qed.

Lemma addChild_keeps_editing_reached (k : JSString) (e : Env) (st : Index) :
  editing_reached (flowchart st) ->
  editing_reached (flowchart (addChild k e st)).
Proof.
  intros Inv p n' Hg' He'.
  pose proof (addChild_content k e st) as E.
  rewrite (@visited_of_content_eq (id n') p _ _ E).
  destruct (get_of_content_eq _ _ p (eq_sym E) Hg') as (m & Gm & En).
  assert (Hm : isEditing m = true /\ id m = id n').
  { destruct (@isEditing_of_fields _ _
                (eq_trans (eq_sym (fields_content m))
                   (eq_trans (f_equal fields En) (fields_content n'))))
      as [A B]. split; congruence. }
  destruct Hm as [Hm1 Hm2].
  destruct (@addChild_value_position k (makeChildId e) p (flowchart st) m Gm)
    as [(n & G & F)|F]; [|congruence].
  destruct (@isEditing_of_fields _ _ F) as [A B].
  rewrite addChild_value_visited by congruence.
  rewrite <- Hm2, B. apply (Inv p n G). congruence.
Qed.

(** X17: in every state of the page, a node in editing state is one that
    [updateNode] reaches under its own id, also when ids are repeated: no
    node above it carries the same id.  So saving or cancelling on it always
    ends its editing state. *)
Theorem reachable_editing_is_reached (st : Index) :
  reachable st ->
  forall p node,
    get p (flowchart st) = Some node -> isEditing node = true ->
    visited (id node) p (flowchart st) = true
    /\ forall editValue,
        (exists n',
            get p (flowchart (snd (handleSaveEdit node editValue st))) = Some n'
            /\ isEditing n' = false)
        /\ (exists n',
               get p (flowchart (snd (handleCancelEdit node editValue st)))
               = Some n'
               /\ isEditing n' = false).
Proof.
  intros R.
  assert (Inv : editing_reached (flowchart st)).
  { induction R as [|st st' R IH S].
    - intros [|i p] n Hg He; [reflexivity|]. destruct i; discriminate.
    - destruct (step_cases S) as [(k & u & -> & Hi & Hc & _)|[(k & e & ->)|[->| ->]]].
      + now apply update_keeps_editing_reached.
      + now apply addChild_keeps_editing_reached.
      + exact IH.
      + exact IH. }
  intros p node Hg He. pose proof (Inv p node Hg He) as Hv.
  split; [exact Hv|]. intros editValue.
  assert (F : forall u,
             u_isEditing u = Some false ->
             exists n',
               get p (flowchart (updateNode (id node) u st)) = Some n'
               /\ isEditing n' = false).
  { intros u Hu. destruct (updateNode_at_visited st p u Hv Hg) as (n' & G & En).
    exists n'. split; [exact G|]. destruct n', node. cbn in En.
    rewrite Hu in En. cbn in En. now injection En as _ _ _ -> _. }
  split.
  - unfold handleSaveEdit. destruct (truthy (trim editValue)); cbn [snd];
      now apply F.
  - unfold handleCancelEdit. cbn [snd]. now apply F.
Qed.

Lemma twins_editing_reachable : reachable twins_editing.
Proof.
  unfold twins_editing. cbn [addChildren].
  eapply reachable_step.
  - eapply reachable_step.
    + eapply reachable_step; [apply reachable_initial|].
      apply (@step_add initial [] (flowchart initial) env1); reflexivity.
    + apply (@step_add (addChild (str "root") env1 initial) []
               (flowchart (addChild (str "root") env1 initial)) env1);
        reflexivity.
  - apply (@step_double_click
             (addChild (str "root") env1 (addChild (str "root") env1 initial))
             [0]
             (nth 0 (children (flowchart
                                 (addChild (str "root") env1
                                    (addChild (str "root") env1 initial))))
                (flowchart initial))
             []); reflexivity.
Qed.

(** One double click puts both twins into editing state. *)
Example twins_both_editing :
  map isEditing (children (flowchart twins_editing)) = [true; true]
  /\ map id (children (flowchart twins_editing))
     = [makeChildId env1; makeChildId env1].
Proof. split; reflexivity. Qed.

Lemma reachable_editing_is_reached_witness :
  visited (makeChildId env1) [1] (flowchart twins_editing) = true.
Proof.
  exact (proj1 (@reachable_editing_is_reached twins_editing
                  twins_editing_reachable [1]
                  (nth 1 (children (flowchart twins_editing))
                     (flowchart twins_editing))
                  eq_refl eq_refl)).
Defined.
